(** * Clock-synchronisation exercises: Berkeley and Cristian

    A shallow embedding of

      - [Lab05-physical-clock-algorithims/berkeley.cpp]  ([Berkeley.main])
      - [Lab05-physical-clock-algorithims/cristian.cpp]  ([Cristian.main])

    Both programs are a single [main] that reads its environment (the wall
    clock, the C library's [rand]) and prints what it computes.  The
    embedding takes what the program reads as arguments and returns what it
    prints together with the values of its variables.

    Data layout is the LP64 one: [int] is 32 bits, [long] and [time_t] are
    64 bits, all signed.  Signed overflow, division by zero and indexing a
    vector out of range are undefined behaviour in C++; every arithmetic
    operation on the program's variables is therefore a checked operation
    that either returns the mathematical result or stops with [Undefined].
    Two computations are left unchecked because they cannot overflow: the
    loop counter and the label [i + 1] (below [NUM_SLAVES], an [int]), and
    the compile-time ratio of [duration_cast]. *)

From stdpp Require Import base numbers list.

Local Open Scope Z_scope.

(** ** The C++ operations the two programs use *)

Module Cxx.

Inductive fault : Type :=
| SignedOverflow
| DivisionByZero
| OutOfBounds.

(** The error taxonomy of the specification.  No statement of the source
    builds an [InvalidInput]; the constructor is here so that claims about
    reported errors can be stated about the programs. *)
Inductive error : Type :=
| InvalidInput.

Inductive outcome (A : Type) : Type :=
| Returned (a : A)
| Reported (e : error)
| Undefined (f : fault).

Arguments Returned {A} a.
Arguments Reported {A} e.
Arguments Undefined {A} f.

#[global] Instance outcome_ret : MRet outcome := λ A a, Returned a.

#[global] Instance outcome_bind : MBind outcome := λ A B k m,
  match m with
  | Returned a => k a
  | Reported e => Reported e
  | Undefined f => Undefined f
  end.

Definition int_min : Z := -2147483648.
Definition int_max : Z := 2147483647.
Definition long_min : Z := -9223372036854775808.
Definition long_max : Z := 9223372036854775807.

Definition fits (lo hi z : Z) : bool := (lo <=? z) && (z <=? hi).

Definition as_int (z : Z) : outcome Z :=
  if fits int_min int_max z then Returned z else Undefined SignedOverflow.

Definition as_long (z : Z) : outcome Z :=
  if fits long_min long_max z then Returned z else Undefined SignedOverflow.

(** [a % b] and [a - b] on [int]. *)
Definition int_rem (a b : Z) : outcome Z :=
  if b =? 0 then Undefined DivisionByZero
  else _ ← as_int (Z.quot a b); Returned (Z.rem a b).

Definition int_sub (a b : Z) : outcome Z := as_int (a - b).

(** [a + b], [a - b], [a * b] and [a / b] on [long] (and on [time_t] and the
    64-bit [rep] of the chrono durations). Division truncates toward zero. *)
Definition long_add (a b : Z) : outcome Z := as_long (a + b).
Definition long_sub (a b : Z) : outcome Z := as_long (a - b).
Definition long_mul (a b : Z) : outcome Z := as_long (a * b).

Definition long_div (a b : Z) : outcome Z :=
  if b =? 0 then Undefined DivisionByZero else as_long (Z.quot a b).

(** [v[i]] on a [std::vector]: no bounds check in the source, so an index
    outside the vector is undefined. *)
Definition at_index (v : list Z) (i : Z) : outcome Z :=
  if i <? 0 then Undefined OutOfBounds
  else match v !! Z.to_nat i with
       | Some x => Returned x
       | None => Undefined OutOfBounds
       end.

(** [for (int i = lo; i < hi; i++) body], with the loop's variables as [S].
    [for_upto count i] runs [count] iterations starting at index [i]. *)
Fixpoint for_upto {S : Type} (count : nat) (i : Z)
    (body : Z → S → outcome S) (s : S) : outcome S :=
  match count with
  | O => Returned s
  | Datatypes.S k => s' ← body i s; for_upto k (i + 1) body s'
  end.

Definition for_int {S : Type} (lo hi : Z) (body : Z → S → outcome S) (s : S)
    : outcome S :=
  for_upto (Z.to_nat (hi - lo)) lo body s.

End Cxx.

Import Cxx.

(** ** cristian.cpp *)

Module Cristian.

Section WithClock.

(** [std::chrono::system_clock::period] is implementation defined: the
    number of clock ticks in one millisecond is a parameter (1000000 with
    libstdc++, 1000 with libc++, 10000 with the Microsoft library). *)
Variable ticks_per_ms : Z.

(** What the program prints, in order.  [ctime] renders a [time_t] in the
    local time zone; the event keeps the [time_t] itself. *)
Inductive event : Type :=
| ServerTime (t : Z)
| ClientActualTime (t : Z)
| RoundTripTime (ms : Z)
| SynchronizedClientTime (t : Z).

(** The variables of [main] after line 36. Time points are tick counts since
    the epoch, [RTT] is in milliseconds, the three [time_t] are seconds. *)
Record vars : Type := {
  RTT : Z;
  one_way_delay : Z;
  synchronized_time : Z;
  server_time : Z;
  client_actual : Z;
  client_sync : Z
}.

(** [duration_cast<milliseconds>(d).count()]: ticks to whole milliseconds. *)
Definition duration_cast_ms (d : Z) : Z := Z.quot d ticks_per_ms.

(** [system_clock::to_time_t(t)]: ticks to whole seconds. *)
Definition to_time_t (t : Z) : Z := Z.quot t (ticks_per_ms * 1000).

(** The time point that lies [ms] milliseconds after the epoch. *)
Definition of_ms (ms : Z) : Z := ms * ticks_per_ms.

(** Lines 28 to 36 of [main], on the three clock samples. *)
Definition cristian (T0 T_server T1 : Z) : outcome vars :=
  d ← long_sub T1 T0;
  let RTT := duration_cast_ms d in
  half ← long_div RTT 2;
  delay ← long_mul half ticks_per_ms;
  synchronized_time ← long_add T_server delay;
  Returned {| RTT := RTT;
              one_way_delay := half;
              synchronized_time := synchronized_time;
              server_time := to_time_t T_server;
              client_actual := to_time_t T1;
              client_sync := to_time_t synchronized_time |}.

Definition report (v : vars) : list event :=
  [ ServerTime (server_time v);
    ClientActualTime (client_actual v);
    RoundTripTime (RTT v);
    SynchronizedClientTime (client_sync v) ].

(** [main]: [now k] is what the (k+1)-th call of [system_clock::now()]
    returns.  The two [sleep_for] calls only let the clock advance between
    the samples.  The result is the exit status and the printed lines. *)
Definition main (now : nat → Z) : outcome (Z * list event) :=
  let T0 := now 0%nat in
  let T_server := now 1%nat in
  let T1 := now 2%nat in
  v ← cristian T0 T_server T1;
  Returned (0, report v).

End WithClock.

End Cristian.

(** ** berkeley.cpp *)

Module Berkeley.

(** What the program prints, in order.  Slaves are labelled [i + 1].  An
    event keeps the value handed to the output statement.  For a time it
    stands for the printed line as long as [ctime] can render the value:
    [ctime] returns a null pointer for a [time_t] whose year does not fit
    an [int], and the stream prints nothing after that.  The vectors and
    the other variables do not depend on it. *)
Inductive event : Type :=
| MasterInitialTime (t : Z)
| SlaveTime (label : Z) (t : Z)
| TimeDifference (label : Z) (seconds : Z)
| AverageTimeDifference (seconds : Z)
| SynchronizedMasterTime (t : Z)
| SlaveNewTime (label : Z) (t : Z).

(** The two vectors of [main] and the output so far. *)
Record vectors : Type := {
  slave_times : list Z;
  time_differences : list Z;
  out : list event
}.

(** The variables of [main] when it returns. *)
Record vars : Type := {
  final : vectors;
  sum : Z;
  average_difference : Z;
  synchronized_time : Z
}.

Section Algorithm.

(** [main] fixes [NUM_SLAVES] to 6, samples [master_time] once and simulates
    the clock of slave [i] on line 27.  The algorithm itself (lines 33 to
    66) reads neither the constant's value nor how a slave's clock was
    obtained, so it is written here over the three of them. *)
Variable NUM_SLAVES : Z.
Variable master_time : Z.
Variable slave_clock : Z → outcome Z.

(** Body of the first loop, lines 26 to 37. *)
Definition collect (i : Z) (s : vectors) : outcome vectors :=
  slave_time ← slave_clock i;
  difference ← long_sub master_time slave_time;
  Returned {| slave_times := slave_times s ++ [slave_time];
              time_differences := time_differences s ++ [difference];
              out := out s ++ [ SlaveTime (i + 1) slave_time;
                                TimeDifference (i + 1) difference ] |}.

(** Body of the second loop, line 43. *)
Definition accumulate (differences : list Z) (i : Z) (sum : Z) : outcome Z :=
  d ← at_index differences i;
  long_add sum d.

(** Body of the third loop, lines 62 to 65. *)
Definition update (average_difference : Z) (i : Z) (s : vectors)
    : outcome vectors :=
  t ← at_index (slave_times s) i;
  t' ← long_add t average_difference;
  Returned {| slave_times := <[Z.to_nat i := t']> (slave_times s);
              time_differences := time_differences s;
              out := out s ++ [ SlaveNewTime (i + 1) t' ] |}.

(** Lines 15 to 68. *)
Definition berkeley : outcome vars :=
  let s0 := {| slave_times := []; time_differences := [];
               out := [ MasterInitialTime master_time ] |} in
  s1 ← for_int 0 NUM_SLAVES collect s0;
  sum ← for_int 0 NUM_SLAVES (accumulate (time_differences s1)) 0;
  average_difference ← long_div sum NUM_SLAVES;
  let s2 := {| slave_times := slave_times s1;
               time_differences := time_differences s1;
               out := out s1 ++ [ AverageTimeDifference average_difference ] |} in
  synchronized_time ← long_add master_time average_difference;
  let s3 := {| slave_times := slave_times s2;
               time_differences := time_differences s2;
               out := out s2 ++ [ SynchronizedMasterTime synchronized_time ] |} in
  s4 ← for_int 0 NUM_SLAVES (update average_difference) s3;
  Returned {| final := s4;
              sum := sum;
              average_difference := average_difference;
              synchronized_time := synchronized_time |}.

End Algorithm.

(** Line 26: [(rand() % 11) - 5], on the value [r] that [rand()] returned. *)
Definition random_offset (r : Z) : outcome Z :=
  m ← int_rem r 11;
  int_sub m 5.

(** Lines 26 and 27: the simulated clock of slave [i].  [rand k] is what the
    (k+1)-th call of [rand()] returns; iteration [i] makes call [i]. *)
Definition simulated_clock (master_time : Z) (rand : nat → Z) (i : Z)
    : outcome Z :=
  offset ← random_offset (rand (Z.to_nat i));
  long_add master_time offset.

(** [main]: [master_time] is what [time(0)] returns.  The result is the exit
    status and the variables, the printed lines among them. *)
Definition main (master_time : Z) (rand : nat → Z) : outcome (Z * vars) :=
  let NUM_SLAVES := 6 in
  v ← berkeley NUM_SLAVES master_time (simulated_clock master_time rand);
  Returned (0, v).

(** Lines 15 to 38 on their own, the first step of [berkeley]: the two
    vectors when the first loop ends. *)
Definition first_loop (NUM_SLAVES master_time : Z)
    (slave_clock : Z → outcome Z) : outcome vectors :=
  for_int 0 NUM_SLAVES (collect master_time slave_clock)
    {| slave_times := []; time_differences := [];
       out := [ MasterInitialTime master_time ] |}.

(** The algorithm on a reference reading and a list of participant readings:
    slave [i] reads the [i]-th element and [NUM_SLAVES] is the length. *)
Definition berkeley_on (reference : Z) (participants : list Z) : outcome vars :=
  berkeley (Z.of_nat (length participants)) reference (at_index participants).

End Berkeley.

(** ** LoadBalancer.cc *)

Module LoadBalancer.

Section SimpleModule.

(** [cMessage] is the simulation kernel's message class; the module never
    looks inside a message. *)
Variable cMessage : Type.

(** The size of the gate vector [out], which the module's NED declaration
    fixes. *)
Variable out_size : Z.

(** One call [send(msg, "out", index)] that went through. *)
Record sending : Type := {
  message : cMessage;
  gate_index : Z
}.

(** [send(msg, "out", index)]: the kernel throws a [cRuntimeError] ([None])
    when the vector has no gate [index]. *)
Definition send (msg : cMessage) (index : Z) : option sending :=
  if (0 <=? index) && (index <? out_size)
  then Some {| message := msg; gate_index := index |}
  else None.

(** [handleMessage]; [intuniform a b] is what the kernel's random number
    function returns for this call. *)
Definition handleMessage (intuniform : Z → Z → Z) (msg : cMessage)
    : option sending :=
  let choice := intuniform 0 1 in
  send msg choice.

(** The kernel calls [handleMessage] once for every message that arrives,
    in the order of arrival; call [k] sees the random function [intuniform k]. *)
Fixpoint deliver (intuniform : nat → Z → Z → Z) (k : nat)
    (arrivals : list cMessage) : option (list sending) :=
  match arrivals with
  | [] => Some []
  | msg :: rest =>
      s ← handleMessage (intuniform k) msg;
      trace ← deliver intuniform (S k) rest;
      Some (s :: trace)
  end.

End SimpleModule.

Arguments message {cMessage} s.
Arguments gate_index {cMessage} s.

End LoadBalancer.

(** ** The computations in the words of the specification *)

Module Spec.

Definition total (l : list Z) : Z := foldr Z.add 0 l.

Definition offsets (reference : Z) (participants : list Z) : list Z :=
  (λ p, reference - p) <$> participants.

(** Integer division truncating toward zero. *)
Definition average_offset (reference : Z) (participants : list Z) : Z :=
  Z.quot (total (offsets reference participants))
         (Z.of_nat (length participants)).

Definition corrected_reference (reference : Z) (participants : list Z) : Z :=
  reference + average_offset reference participants.

Definition corrected_participants (reference : Z) (participants : list Z)
    : list Z :=
  (λ p, p + average_offset reference participants) <$> participants.

End Spec.

(** The lines [berkeley] prints for the slaves, given their readings. *)
Fixpoint collected_lines (master_time : Z) (i : Z) (readings : list Z)
    : list Berkeley.event :=
  match readings with
  | [] => []
  | t :: rest =>
      Berkeley.SlaveTime (i + 1) t
        :: Berkeley.TimeDifference (i + 1) (master_time - t)
        :: collected_lines master_time (i + 1) rest
  end.

Fixpoint updated_lines (i : Z) (times : list Z) : list Berkeley.event :=
  match times with
  | [] => []
  | t :: rest => Berkeley.SlaveNewTime (i + 1) t :: updated_lines (i + 1) rest
  end.

(** Everything [berkeley] leaves behind on a reference reading and a list
    of participant readings, in the words of the specification. *)
Definition expected (reference : Z) (participants : list Z) : Berkeley.vars :=
  let average := Spec.average_offset reference participants in
  {| Berkeley.final := {|
       Berkeley.slave_times :=
         Spec.corrected_participants reference participants;
       Berkeley.time_differences := Spec.offsets reference participants;
       Berkeley.out :=
         Berkeley.MasterInitialTime reference
           :: collected_lines reference 0 participants
           ++ [ Berkeley.AverageTimeDifference average;
                Berkeley.SynchronizedMasterTime
                  (Spec.corrected_reference reference participants) ]
           ++ updated_lines 0
                (Spec.corrected_participants reference participants) |};
     Berkeley.sum := Spec.total (Spec.offsets reference participants);
     Berkeley.average_difference := average;
     Berkeley.synchronized_time :=
       Spec.corrected_reference reference participants |}.

(** The six readings [main] simulates from [rand], in the order of the
    slaves. *)
Definition simulated_readings (master_time : Z) (rand : nat → Z) : list Z :=
  (λ k, master_time + (Z.rem (rand k) 11 - 5)) <$> seq 0 6.

(** ** Preconditions: every intermediate value fits its type *)

Definition in_long (z : Z) : bool := fits long_min long_max z.

(** A tick count within 2^61 of the epoch (the year 2043 for a nanosecond
    clock): differences and sums of such counts fit 64 bits. *)
Definition near_epoch (t : Z) : Prop :=
  -2305843009213693952 ≤ t ≤ 2305843009213693952.

(** The time point [ms] milliseconds after the epoch is near the epoch. *)
Definition sampled (ticks_per_ms ms : Z) : Prop :=
  near_epoch (Cristian.of_ms ticks_per_ms ms).

(** The running sums [acc + d1], [acc + d1 + d2], ... of the second loop. *)
Fixpoint running_sums_fit (acc : Z) (l : list Z) : bool :=
  match l with
  | [] => true
  | d :: rest => in_long (acc + d) && running_sums_fit (acc + d) rest
  end.

(** Exactly the checks that [berkeley] meets on a non-empty list. *)
Definition no_overflow (reference : Z) (participants : list Z) : bool :=
  (Z.of_nat (length participants) <=? int_max)
  && forallb (λ p, in_long (reference - p)) participants
  && running_sums_fit 0 (Spec.offsets reference participants)
  && in_long (Spec.corrected_reference reference participants)
  && forallb (λ p, in_long (p + Spec.average_offset reference participants))
       participants.

(** ** The scenario of the specification, run *)

Example berkeley_spec_scenario :
  Berkeley.berkeley_on 100 [98; 102; 99; 101; 97; 103]
  = Returned {|
      Berkeley.final := {|
        Berkeley.slave_times := [98; 102; 99; 101; 97; 103];
        Berkeley.time_differences := [2; -2; 1; -1; 3; -3];
        Berkeley.out :=
          Berkeley.MasterInitialTime 100
            :: collected_lines 100 0 [98; 102; 99; 101; 97; 103]
            ++ [ Berkeley.AverageTimeDifference 0;
                 Berkeley.SynchronizedMasterTime 100 ]
            ++ updated_lines 0 [98; 102; 99; 101; 97; 103] |};
      Berkeley.sum := 0;
      Berkeley.average_difference := 0;
      Berkeley.synchronized_time := 100 |}.
Proof. vm_compute. reflexivity. Qed.

(** ** Checked arithmetic *)

Lemma bind_Returned {A B : Type} (a : A) (k : A → outcome B) :
  (Returned a ≫= k) = k a.
Proof. reflexivity. Qed.

Lemma fits_spec lo hi z : fits lo hi z = true ↔ lo ≤ z ≤ hi.
Proof. unfold fits. rewrite andb_true_iff, !Z.leb_le. tauto. Qed.

Lemma in_long_spec z : in_long z = true ↔ long_min ≤ z ≤ long_max.
Proof. apply fits_spec. Qed.

Lemma as_long_fits z : long_min ≤ z ≤ long_max → as_long z = Returned z.
Proof.
  intros H. unfold as_long.
  apply fits_spec in H. rewrite H. reflexivity.
Qed.

Lemma as_int_fits z : int_min ≤ z ≤ int_max → as_int z = Returned z.
Proof.
  intros H. unfold as_int.
  apply fits_spec in H. rewrite H. reflexivity.
Qed.

Lemma as_long_not_reported z e : as_long z ≠ Reported e.
Proof. unfold as_long. destruct (fits _ _ _); discriminate. Qed.

Lemma as_int_not_reported z e : as_int z ≠ Reported e.
Proof. unfold as_int. destruct (fits _ _ _); discriminate. Qed.

Lemma long_div_not_reported a b e : long_div a b ≠ Reported e.
Proof.
  unfold long_div. destruct (b =? 0); [discriminate | apply as_long_not_reported].
Qed.

Lemma at_index_not_reported v i e : at_index v i ≠ Reported e.
Proof.
  unfold at_index. destruct (i <? 0); [discriminate |].
  destruct (v !! Z.to_nat i); discriminate.
Qed.

(** A reported error can only come out of a bind from one of its two sides. *)
Lemma bind_reported {A B : Type} (m : outcome A) (k : A → outcome B) e :
  m ≫= k = Reported e →
  m = Reported e ∨ ∃ a, m = Returned a ∧ k a = Reported e.
Proof.
  destruct m as [a | e' | f]; cbn; intros H.
  - right. exists a. split; [reflexivity | exact H].
  - left. congruence.
  - discriminate.
Qed.

(** Truncating division never grows a number, and stays within it when
    multiplied back. *)
Lemma quot_mul_abs_le a b : 0 < b → Z.abs (Z.quot a b * b) ≤ Z.abs a.
Proof.
  intros Hb. rewrite (Z.mul_comm _ b).
  destruct (Z_le_gt_dec 0 a) as [Ha | Ha].
  - pose proof (Z.mul_quot_le a b Ha ltac:(lia)). lia.
  - pose proof (Z.mul_quot_ge a b ltac:(lia) ltac:(lia)). lia.
Qed.

Lemma quot_abs_le a b : 0 < b → Z.abs (Z.quot a b) ≤ Z.abs a.
Proof.
  intros Hb. pose proof (quot_mul_abs_le a b Hb). nia.
Qed.

(** [|a| ≤ D * b] bounds the truncated quotient by [D]. *)
Lemma quot_abs_bound a b D : 0 < b → Z.abs a ≤ D * b → Z.abs (Z.quot a b) ≤ D.
Proof.
  intros Hb H. pose proof (quot_mul_abs_le a b Hb). nia.
Qed.

(** ** cristian.cpp: what [cristian] returns *)

Section CristianFacts.

Variable ticks_per_ms : Z.
Hypothesis clock_resolution : 0 < ticks_per_ms.

Local Abbreviation cristian := (Cristian.cristian ticks_per_ms).
Local Abbreviation of_ms := (Cristian.of_ms ticks_per_ms).
Local Abbreviation to_time_t := (Cristian.to_time_t ticks_per_ms).

(** On three time points near the epoch nothing overflows, for any order of
    the three. *)
Lemma cristian_on_ticks T0 T_server T1 :
  near_epoch T0 → near_epoch T_server → near_epoch T1 →
  let rtt := Z.quot (T1 - T0) ticks_per_ms in
  let sync := T_server + Z.quot rtt 2 * ticks_per_ms in
  cristian T0 T_server T1
  = Returned {| Cristian.RTT := rtt;
                Cristian.one_way_delay := Z.quot rtt 2;
                Cristian.synchronized_time := sync;
                Cristian.server_time := to_time_t T_server;
                Cristian.client_actual := to_time_t T1;
                Cristian.client_sync := to_time_t sync |}.
Proof.
  intros H0 Hs H1 rtt sync. unfold near_epoch in H0, Hs, H1.
  assert (Hrtt : Z.abs (rtt * ticks_per_ms) ≤ Z.abs (T1 - T0))
    by (apply quot_mul_abs_le; assumption).
  assert (Hhalf : Z.abs (Z.quot rtt 2) ≤ Z.abs rtt)
    by (apply quot_abs_le; lia).
  assert (Z.abs rtt ≤ Z.abs (T1 - T0)) by (apply quot_abs_le; assumption).
  unfold Cristian.cristian, long_sub, long_div, long_mul, long_add,
    Cristian.duration_cast_ms.
  rewrite as_long_fits by (unfold long_min, long_max; lia).
  rewrite bind_Returned. fold rtt. cbn [Z.eqb].
  rewrite as_long_fits by (unfold long_min, long_max; lia).
  rewrite bind_Returned.
  rewrite as_long_fits by (unfold long_min, long_max; nia).
  rewrite bind_Returned.
  rewrite as_long_fits by (unfold long_min, long_max; nia).
  reflexivity.
Qed.

(** The same on timestamps counted in milliseconds. *)
Lemma cristian_on_ms T0 Ts T1 :
  sampled ticks_per_ms T0 → sampled ticks_per_ms Ts → sampled ticks_per_ms T1 →
  let sync := of_ms (Ts + Z.quot (T1 - T0) 2) in
  cristian (of_ms T0) (of_ms Ts) (of_ms T1)
  = Returned {| Cristian.RTT := T1 - T0;
                Cristian.one_way_delay := Z.quot (T1 - T0) 2;
                Cristian.synchronized_time := sync;
                Cristian.server_time := to_time_t (of_ms Ts);
                Cristian.client_actual := to_time_t (of_ms T1);
                Cristian.client_sync := to_time_t sync |}.
Proof.
  intros H0 Hs H1 sync.
  rewrite (cristian_on_ticks _ _ _ H0 Hs H1). cbn zeta.
  assert (E : Z.quot (of_ms T1 - of_ms T0) ticks_per_ms = T1 - T0).
  { unfold Cristian.of_ms. rewrite <- Z.mul_sub_distr_r.
    apply Z.quot_mul. lia. }
  rewrite E.
  assert (E' : of_ms Ts + Z.quot (T1 - T0) 2 * ticks_per_ms = sync).
  { unfold sync, Cristian.of_ms. lia. }
  rewrite E'. reflexivity.
Qed.

(** No input makes [cristian] report an error. *)
Lemma cristian_never_reports T0 T_server T1 e :
  cristian T0 T_server T1 ≠ Reported e.
Proof.
  unfold Cristian.cristian. intros H.
  apply bind_reported in H as [H | (d & _ & H)];
    [exact (as_long_not_reported _ _ H) |].
  apply bind_reported in H as [H | (h & _ & H)];
    [exact (long_div_not_reported _ _ _ H) |].
  apply bind_reported in H as [H | (m & _ & H)];
    [exact (as_long_not_reported _ _ H) |].
  apply bind_reported in H as [H | (t & _ & H)];
    [exact (as_long_not_reported _ _ H) | discriminate].
Qed.

End CristianFacts.

(** ** berkeley.cpp: the three loops *)

Lemma at_index_middle (pre l : list Z) (x : Z) :
  at_index (pre ++ x :: l) (Z.of_nat (length pre)) = Returned x.
Proof.
  unfold at_index.
  destruct (Z.ltb_spec (Z.of_nat (length pre)) 0) as [H | _]; [lia |].
  rewrite Nat2Z.id, list_lookup_middle by reflexivity. reflexivity.
Qed.

Lemma at_index_lookup (v : list Z) (i : nat) (x : Z) :
  v !! i = Some x → at_index v (Z.of_nat i) = Returned x.
Proof.
  intros H. unfold at_index.
  destruct (Z.ltb_spec (Z.of_nat i) 0) as [Hi | _]; [lia |].
  rewrite Nat2Z.id, H. reflexivity.
Qed.

Lemma for_upto_S {S : Type} (k : nat) (i : Z) (body : Z → S → outcome S) s :
  for_upto (Datatypes.S k) i body s = body i s ≫= for_upto k (i + 1) body.
Proof. reflexivity. Qed.

Section BerkeleyLoops.

Variable master_time : Z.
Variable slave_clock : Z → outcome Z.

Lemma collect_returns (i p : Z) (s : Berkeley.vectors) :
  slave_clock i = Returned p →
  long_min ≤ master_time - p ≤ long_max →
  Berkeley.collect master_time slave_clock i s
  = Returned {|
      Berkeley.slave_times := Berkeley.slave_times s ++ [p];
      Berkeley.time_differences :=
        Berkeley.time_differences s ++ [master_time - p];
      Berkeley.out :=
        Berkeley.out s ++ [ Berkeley.SlaveTime (i + 1) p;
                            Berkeley.TimeDifference (i + 1) (master_time - p) ] |}.
Proof.
  intros Hclock Hfit. unfold Berkeley.collect, long_sub.
  rewrite Hclock, bind_Returned, (as_long_fits _ Hfit). reflexivity.
Qed.

Lemma accumulate_returns (pre l : list Z) (d acc : Z) :
  long_min ≤ acc + d ≤ long_max →
  Berkeley.accumulate (pre ++ d :: l) (Z.of_nat (length pre)) acc
  = Returned (acc + d).
Proof.
  intros Hfit. unfold Berkeley.accumulate, long_add.
  rewrite at_index_middle, bind_Returned. apply as_long_fits, Hfit.
Qed.

Lemma update_returns (average p : Z) (pre l diffs : list Z) o :
  long_min ≤ p + average ≤ long_max →
  Berkeley.update average (Z.of_nat (length pre))
    {| Berkeley.slave_times := pre ++ p :: l;
       Berkeley.time_differences := diffs;
       Berkeley.out := o |}
  = Returned {|
      Berkeley.slave_times := pre ++ (p + average) :: l;
      Berkeley.time_differences := diffs;
      Berkeley.out :=
        o ++ [ Berkeley.SlaveNewTime (Z.of_nat (length pre) + 1) (p + average) ] |}.
Proof.
  intros Hfit. unfold Berkeley.update, long_add.
  cbn [Berkeley.slave_times Berkeley.time_differences Berkeley.out].
  rewrite at_index_middle, bind_Returned, (as_long_fits _ Hfit), bind_Returned.
  rewrite Nat2Z.id.
  rewrite <- (Nat.add_0_r (length pre)) at 1. rewrite insert_app_r.
  reflexivity.
Qed.

(** First loop: the readings are appended in the order of the slaves, and
    the differences next to them. *)
Lemma collect_loop (l : list Z) : ∀ (i0 : Z) (s : Berkeley.vectors),
  (∀ (j : nat) (p : Z), l !! j = Some p →
     slave_clock (i0 + Z.of_nat j) = Returned p) →
  forallb (λ p, in_long (master_time - p)) l = true →
  for_upto (length l) i0 (Berkeley.collect master_time slave_clock) s
  = Returned {|
      Berkeley.slave_times := Berkeley.slave_times s ++ l;
      Berkeley.time_differences :=
        Berkeley.time_differences s ++ Spec.offsets master_time l;
      Berkeley.out := Berkeley.out s ++ collected_lines master_time i0 l |}.
Proof.
  induction l as [| p l IH]; intros i0 s Hclock Hfit.
  - destruct s. cbn. rewrite !app_nil_r. reflexivity.
  - cbn [forallb] in Hfit. apply andb_true_iff in Hfit as [Hp Hl].
    apply in_long_spec in Hp.
    pose proof (Hclock 0%nat p eq_refl) as H0.
    cbn [Z.of_nat] in H0. rewrite Z.add_0_r in H0.
    cbn [length]. rewrite for_upto_S, (collect_returns _ _ _ H0 Hp).
    rewrite bind_Returned, IH.
    + cbn [Berkeley.slave_times Berkeley.time_differences Berkeley.out
           Spec.offsets fmap list_fmap collected_lines].
      rewrite <- !app_assoc. reflexivity.
    + intros j q Hj. rewrite <- (Hclock (S j) q Hj). f_equal. lia.
    + exact Hl.
Qed.

(** Second loop: the sum of the differences, as long as every running sum
    fits. *)
Lemma accumulate_loop (l : list Z) : ∀ (pre : list Z) (acc : Z),
  running_sums_fit acc l = true →
  for_upto (length l) (Z.of_nat (length pre))
    (Berkeley.accumulate (pre ++ l)) acc
  = Returned (acc + Spec.total l).
Proof.
  induction l as [| d l IH]; intros pre acc Hfit.
  - cbn. apply (f_equal Returned). lia.
  - cbn [running_sums_fit] in Hfit. apply andb_true_iff in Hfit as [Hd Hl].
    apply in_long_spec in Hd.
    cbn [length]. rewrite for_upto_S, (accumulate_returns _ _ _ _ Hd).
    rewrite bind_Returned.
    replace (pre ++ d :: l) with ((pre ++ [d]) ++ l)
      by (rewrite <- app_assoc; reflexivity).
    replace (Z.of_nat (length pre) + 1) with (Z.of_nat (length (pre ++ [d])))
      by (rewrite length_app; cbn; lia).
    rewrite (IH _ _ Hl). unfold Spec.total. cbn [foldr].
    apply (f_equal Returned). lia.
Qed.

(** Third loop: every slave is moved by the average, in place. *)
Lemma update_loop (average : Z) (l : list Z) :
  ∀ (pre diffs : list Z) (o : list Berkeley.event),
  forallb (λ p, in_long (p + average)) l = true →
  for_upto (length l) (Z.of_nat (length pre)) (Berkeley.update average)
    {| Berkeley.slave_times := pre ++ l;
       Berkeley.time_differences := diffs;
       Berkeley.out := o |}
  = Returned {|
      Berkeley.slave_times := pre ++ ((λ p, p + average) <$> l);
      Berkeley.time_differences := diffs;
      Berkeley.out :=
        o ++ updated_lines (Z.of_nat (length pre))
               ((λ p, p + average) <$> l) |}.
Proof.
  induction l as [| p l IH]; intros pre diffs o Hfit.
  - cbn. rewrite !app_nil_r. reflexivity.
  - cbn [forallb] in Hfit. apply andb_true_iff in Hfit as [Hp Hl].
    apply in_long_spec in Hp.
    cbn [length]. rewrite for_upto_S, (update_returns _ _ _ _ _ _ Hp).
    rewrite bind_Returned.
    replace (pre ++ (p + average) :: l) with ((pre ++ [p + average]) ++ l)
      by (rewrite <- app_assoc; reflexivity).
    replace (Z.of_nat (length pre) + 1)
      with (Z.of_nat (length (pre ++ [p + average])))
      by (rewrite length_app; cbn; lia).
    rewrite (IH _ _ _ Hl).
    rewrite length_app. cbn [length fmap list_fmap updated_lines].
    rewrite <- !app_assoc. cbn [app].
    replace (Z.of_nat (length pre + 1)) with (Z.of_nat (length pre) + 1)
      by lia.
    reflexivity.
Qed.

End BerkeleyLoops.

(** ** berkeley.cpp: what [berkeley] returns *)

Lemma quot_between a b :
  0 < b → Z.min 0 a ≤ Z.quot a b ≤ Z.max 0 a.
Proof.
  intros Hb.
  destruct (Z_le_gt_dec 0 a) as [Ha | Ha].
  - pose proof (Z.mul_quot_le a b Ha ltac:(lia)). nia.
  - pose proof (Z.mul_quot_ge a b ltac:(lia) ltac:(lia)). nia.
Qed.

Lemma running_sums_total (l : list Z) : ∀ acc,
  long_min ≤ acc ≤ long_max →
  running_sums_fit acc l = true →
  long_min ≤ acc + Spec.total l ≤ long_max.
Proof.
  induction l as [| d l IH]; intros acc Hacc Hfit.
  - cbn. lia.
  - cbn [running_sums_fit] in Hfit. apply andb_true_iff in Hfit as [Hd Hl].
    apply in_long_spec in Hd. specialize (IH _ Hd Hl).
    unfold Spec.total in *. cbn [foldr]. lia.
Qed.

Lemma no_overflow_spec reference participants :
  no_overflow reference participants = true ↔
    Z.of_nat (length participants) ≤ int_max
    ∧ forallb (λ p, in_long (reference - p)) participants = true
    ∧ running_sums_fit 0 (Spec.offsets reference participants) = true
    ∧ long_min ≤ Spec.corrected_reference reference participants ≤ long_max
    ∧ forallb (λ p, in_long (p + Spec.average_offset reference participants))
        participants = true.
Proof.
  unfold no_overflow.
  rewrite !andb_true_iff, Z.leb_le, in_long_spec. tauto.
Qed.

(** The run on any slave clocks that read [participants], in their order. *)
Lemma berkeley_returns (NUM_SLAVES reference : Z) (slave_clock : Z → outcome Z)
    (participants : list Z) :
  NUM_SLAVES = Z.of_nat (length participants) →
  participants ≠ [] →
  (∀ (j : nat) (p : Z), participants !! j = Some p →
     slave_clock (Z.of_nat j) = Returned p) →
  no_overflow reference participants = true →
  Berkeley.berkeley NUM_SLAVES reference slave_clock
  = Returned (expected reference participants).
Proof.
  intros -> Hne Hclock Hsafe.
  apply no_overflow_spec in Hsafe as (_ & Hdiff & Hsums & Href & Hupd).
  assert (HN : 0 < Z.of_nat (length participants))
    by (destruct participants; [congruence | cbn [length]; lia]).
  unfold Berkeley.berkeley, for_int.
  rewrite Z.sub_0_r, Nat2Z.id.
  rewrite (collect_loop reference slave_clock participants 0); [| | exact Hdiff].
  2:{ intros j p Hj. rewrite Z.add_0_l. exact (Hclock j p Hj). }
  rewrite bind_Returned.
  cbn [Berkeley.slave_times Berkeley.time_differences Berkeley.out app].
  pose proof (accumulate_loop (Spec.offsets reference participants) [] 0 Hsums)
    as Hacc.
  unfold Spec.offsets in Hacc at 1. rewrite length_fmap in Hacc.
  cbn [length app] in Hacc. change (Z.of_nat 0) with 0 in Hacc.
  rewrite Hacc, bind_Returned, Z.add_0_l.
  pose proof (running_sums_total _ 0 ltac:(unfold long_min, long_max; lia) Hsums)
    as Htotal.
  rewrite Z.add_0_l in Htotal.
  pose proof (quot_between (Spec.total (Spec.offsets reference participants))
                (Z.of_nat (length participants)) HN) as Hq.
  unfold long_div.
  destruct (Z.eqb_spec (Z.of_nat (length participants)) 0) as [E | _]; [lia |].
  rewrite as_long_fits by (unfold long_min, long_max in *; lia).
  rewrite bind_Returned.
  fold (Spec.average_offset reference participants).
  unfold long_add at 1.
  fold (Spec.corrected_reference reference participants).
  rewrite (as_long_fits _ Href), bind_Returned.
  pose proof (update_loop (Spec.average_offset reference participants)
                participants [] (Spec.offsets reference participants)) as Hloop.
  cbn [length app] in Hloop. change (Z.of_nat 0) with 0 in Hloop.
  rewrite (Hloop _ Hupd), bind_Returned.
  unfold expected. cbn zeta.
  fold (Spec.corrected_participants reference participants).
  cbn [app]. rewrite <- !app_assoc. reflexivity.
Qed.

(** The run on a list of readings. *)
Lemma berkeley_on_returns (reference : Z) (participants : list Z) :
  participants ≠ [] →
  no_overflow reference participants = true →
  Berkeley.berkeley_on reference participants
  = Returned (expected reference participants).
Proof.
  intros Hne Hsafe. unfold Berkeley.berkeley_on.
  apply (berkeley_returns _ _ _ participants); try assumption; try reflexivity.
  intros j p Hj. apply at_index_lookup, Hj.
Qed.

(** ** Inputs on which nothing overflows *)

Lemma running_sums_bounded (D : Z) (l : list Z) : ∀ acc,
  Forall (λ d, Z.abs d ≤ D) l →
  Z.abs acc + D * Z.of_nat (length l) ≤ long_max →
  running_sums_fit acc l = true.
Proof.
  induction l as [| d l IH]; intros acc Hall Hroom; [reflexivity |].
  apply Forall_cons in Hall as [Hd Hl].
  cbn [running_sums_fit length] in *. apply andb_true_iff. split.
  - apply in_long_spec. unfold long_min, long_max in *. nia.
  - apply IH; [exact Hl | nia].
Qed.

Lemma total_bounded (D : Z) (l : list Z) :
  Forall (λ d, Z.abs d ≤ D) l →
  Z.abs (Spec.total l) ≤ D * Z.of_nat (length l).
Proof.
  induction 1 as [| d l Hd _ IH]; unfold Spec.total in *; cbn [foldr length];
    lia.
Qed.

Lemma offsets_bounded (D reference : Z) (participants : list Z) :
  Forall (λ p, Z.abs (reference - p) ≤ D) participants →
  Forall (λ d, Z.abs d ≤ D) (Spec.offsets reference participants).
Proof.
  intros H. unfold Spec.offsets. apply Forall_fmap.
  eapply Forall_impl; [exact H | intros p Hp; exact Hp].
Qed.

Lemma forallb_of_Forall {A : Type} (f : A → bool) (P : A → Prop) (l : list A) :
  (∀ x, P x → f x = true) → Forall P l → forallb f l = true.
Proof.
  intros Hf. induction 1 as [| x l Hx _ IH]; [reflexivity |].
  cbn [forallb]. rewrite (Hf _ Hx), IH. reflexivity.
Qed.

(** Readings within [D] of a reference that has room for [2 * D] on both
    sides never overflow. *)
Lemma no_overflow_of_spread (D reference : Z) (participants : list Z) :
  participants ≠ [] →
  Z.of_nat (length participants) ≤ int_max →
  Forall (λ p, Z.abs (reference - p) ≤ D) participants →
  D * Z.of_nat (length participants) ≤ long_max →
  long_min + 2 * D ≤ reference ≤ long_max - 2 * D →
  no_overflow reference participants = true.
Proof.
  intros Hne Hint Hall Hsum Href.
  assert (HN : 0 < Z.of_nat (length participants))
    by (destruct participants; [congruence | cbn [length]; lia]).
  assert (HD : 0 ≤ D).
  { destruct participants as [| p l]; [congruence |].
    apply Forall_cons in Hall as [Hp _]. lia. }
  pose proof (offsets_bounded _ _ _ Hall) as Hoff.
  pose proof (total_bounded _ _ Hoff) as Htot.
  unfold Spec.offsets in Htot at 2. rewrite length_fmap in Htot.
  assert (Havg : Z.abs (Spec.average_offset reference participants) ≤ D)
    by (apply quot_abs_bound; assumption).
  apply no_overflow_spec. repeat split; try assumption.
  - apply (λ H, forallb_of_Forall _ _ _ H Hall).
    intros p Hp. apply in_long_spec. unfold long_min, long_max in *. nia.
  - apply (running_sums_bounded D); [exact Hoff |].
    unfold Spec.offsets. rewrite length_fmap. lia.
  - unfold Spec.corrected_reference. lia.
  - unfold Spec.corrected_reference. lia.
  - apply (λ H, forallb_of_Forall _ _ _ H Hall).
    intros p Hp. apply in_long_spec. cbn beta in Hp. lia.
Qed.

(** ** berkeley.cpp: no error report, and what the run depends on *)

Lemma for_upto_never_reports {S : Type} (body : Z → S → outcome S) (count : nat) :
  (∀ i s e, body i s ≠ Reported e) →
  ∀ i s e, for_upto count i body s ≠ Reported e.
Proof.
  intros Hbody. induction count as [| k IH]; intros i s e; [discriminate |].
  rewrite for_upto_S. intros H.
  apply bind_reported in H as [H | (s' & _ & H)].
  - exact (Hbody _ _ _ H).
  - exact (IH _ _ _ H).
Qed.

Lemma berkeley_never_reports NUM_SLAVES master_time slave_clock e :
  (∀ i e', slave_clock i ≠ Reported e') →
  Berkeley.berkeley NUM_SLAVES master_time slave_clock ≠ Reported e.
Proof.
  intros Hclock. unfold Berkeley.berkeley, for_int. intros H.
  apply bind_reported in H as [H | (s1 & _ & H)].
  { revert H. apply for_upto_never_reports. intros i s e0 H.
    unfold Berkeley.collect in H.
    apply bind_reported in H as [H | (t & _ & H)]; [exact (Hclock _ _ H) |].
    apply bind_reported in H as [H | (d & _ & H)];
      [exact (as_long_not_reported _ _ H) | discriminate]. }
  apply bind_reported in H as [H | (total & _ & H)].
  { revert H. apply for_upto_never_reports. intros i s e0 H.
    unfold Berkeley.accumulate in H.
    apply bind_reported in H as [H | (d & _ & H)];
      [exact (at_index_not_reported _ _ _ H)
      | exact (as_long_not_reported _ _ H)]. }
  apply bind_reported in H as [H | (average & _ & H)];
    [exact (long_div_not_reported _ _ _ H) |].
  apply bind_reported in H as [H | (sync & _ & H)];
    [exact (as_long_not_reported _ _ H) |].
  apply bind_reported in H as [H | (s4 & _ & H)]; [| discriminate].
  revert H. apply for_upto_never_reports. intros i s e0 H.
  unfold Berkeley.update in H.
  apply bind_reported in H as [H | (t & _ & H)];
    [exact (at_index_not_reported _ _ _ H) |].
  apply bind_reported in H as [H | (t' & _ & H)];
    [exact (as_long_not_reported _ _ H) | discriminate].
Qed.

Lemma simulated_clock_never_reports master_time rand i e :
  Berkeley.simulated_clock master_time rand i ≠ Reported e.
Proof.
  unfold Berkeley.simulated_clock, Berkeley.random_offset, int_rem, int_sub.
  cbn [Z.eqb]. intros H.
  apply bind_reported in H as [H | (o & _ & H)];
    [| exact (as_long_not_reported _ _ H)].
  apply bind_reported in H as [H | (m & _ & H)];
    [| exact (as_int_not_reported _ _ H)].
  apply bind_reported in H as [H | (q & _ & H)];
    [exact (as_int_not_reported _ _ H) | discriminate].
Qed.

(** A loop only looks at its body on the indices it visits. *)
Lemma for_upto_ext {S : Type} (body body' : Z → S → outcome S) (count : nat) :
  ∀ i s,
  (∀ j s', i ≤ j < i + Z.of_nat count → body j s' = body' j s') →
  for_upto count i body s = for_upto count i body' s.
Proof.
  induction count as [| k IH]; intros i s Hsame; [reflexivity |].
  rewrite !for_upto_S, (Hsame i s) by lia.
  destruct (body' i s) as [s' | e | f]; try reflexivity.
  rewrite !bind_Returned. apply IH. intros j s'' Hj. apply Hsame. lia.
Qed.

(** [berkeley] only looks at the clocks of slaves [0] to [NUM_SLAVES - 1]. *)
Lemma berkeley_ext NUM_SLAVES master_time slave_clock slave_clock' :
  (∀ i, 0 ≤ i < NUM_SLAVES → slave_clock i = slave_clock' i) →
  Berkeley.berkeley NUM_SLAVES master_time slave_clock
  = Berkeley.berkeley NUM_SLAVES master_time slave_clock'.
Proof.
  intros Hsame. unfold Berkeley.berkeley, for_int.
  rewrite (for_upto_ext (Berkeley.collect master_time slave_clock)
             (Berkeley.collect master_time slave_clock')); [reflexivity |].
  intros j s' Hj. unfold Berkeley.collect.
  rewrite Hsame by lia. reflexivity.
Qed.

(** ** berkeley.cpp: what [main] returns *)

(** [rand()] returns a value between 0 and [RAND_MAX], which is an [int]:
    the offset of line 26 is then between -5 and 5. *)
Lemma random_offset_returns (r : Z) :
  0 ≤ r ≤ int_max →
  Berkeley.random_offset r = Returned (Z.rem r 11 - 5)
  ∧ -5 ≤ Z.rem r 11 - 5 ≤ 5.
Proof.
  intros Hr.
  pose proof (Z.rem_bound_pos r 11 ltac:(lia) ltac:(lia)) as Hrem.
  pose proof (quot_between r 11 ltac:(lia)) as Hquot.
  split; [| lia].
  unfold Berkeley.random_offset, int_rem, int_sub. cbn [Z.eqb].
  rewrite as_int_fits by (unfold int_min, int_max in *; lia).
  rewrite !bind_Returned.
  apply as_int_fits. unfold int_min, int_max. lia.
Qed.

Lemma simulated_clock_returns (master_time : Z) (rand : nat → Z) (k : nat) :
  0 ≤ rand k ≤ int_max →
  long_min + 5 ≤ master_time ≤ long_max - 5 →
  Berkeley.simulated_clock master_time rand (Z.of_nat k)
  = Returned (master_time + (Z.rem (rand k) 11 - 5)).
Proof.
  intros Hr Hm. unfold Berkeley.simulated_clock. rewrite Nat2Z.id.
  destruct (random_offset_returns _ Hr) as [-> Hoff].
  rewrite bind_Returned. apply as_long_fits. lia.
Qed.

Lemma simulated_readings_lookup master_time rand (j : nat) (p : Z) :
  simulated_readings master_time rand !! j = Some p ↔
    (j < 6)%nat ∧ p = master_time + (Z.rem (rand j) 11 - 5).
Proof.
  unfold simulated_readings. rewrite list_lookup_fmap, fmap_Some.
  split.
  - intros (k & Hk & ->). apply lookup_seq in Hk as [-> Hj]. split; [lia | ].
    reflexivity.
  - intros [Hj ->]. exists j. split; [| reflexivity].
    apply lookup_seq. split; [reflexivity | lia].
Qed.

Lemma simulated_readings_spread master_time rand :
  (∀ k, (k < 6)%nat → 0 ≤ rand k ≤ int_max) →
  Forall (λ p, Z.abs (master_time - p) ≤ 5)
    (simulated_readings master_time rand).
Proof.
  intros Hrand. apply Forall_lookup. intros j p Hj.
  apply simulated_readings_lookup in Hj as [Hj ->].
  destruct (random_offset_returns _ (Hrand j Hj)) as [_ Hoff]. lia.
Qed.

Lemma main_returns (master_time : Z) (rand : nat → Z) :
  (∀ k, (k < 6)%nat → 0 ≤ rand k ≤ int_max) →
  long_min + 10 ≤ master_time ≤ long_max - 10 →
  Berkeley.main master_time rand
  = Returned (0, expected master_time (simulated_readings master_time rand)).
Proof.
  intros Hrand Hm. unfold Berkeley.main.
  rewrite (berkeley_returns _ _ _ (simulated_readings master_time rand));
    [reflexivity | reflexivity | discriminate | |].
  - intros j p Hj. apply simulated_readings_lookup in Hj as [Hj ->].
    apply simulated_clock_returns; [apply Hrand, Hj | lia].
  - apply (no_overflow_of_spread 5).
    + discriminate.
    + unfold int_max. cbn. lia.
    + apply simulated_readings_spread, Hrand.
    + unfold long_max. cbn. lia.
    + lia.
Qed.

(** ** Claims about cristian.cpp *)

(** C2. CristianSync: for every triple of integer timestamps (T0, Ts, T1),
    counted in milliseconds, with T0 ≤ T1, the computation produces
    RTT = T1 − T0, one_way_delay = RTT / 2 truncated, and synchronized_time
    = Ts + one_way_delay; for T0 = 1000, Ts = 1100, T1 = 1200 it yields
    RTT = 200, one_way_delay = 100 and synchronized_time = 1200.  The three
    timestamps reach the code as the time points [of_ms T]; this holds for
    every clock resolution. *)
Theorem cristian_computes (ticks_per_ms T0 Ts T1 : Z) :
  0 < ticks_per_ms →
  sampled ticks_per_ms T0 →
  sampled ticks_per_ms Ts →
  sampled ticks_per_ms T1 →
  T0 ≤ T1 →
  (∃ v,
     Cristian.cristian ticks_per_ms (Cristian.of_ms ticks_per_ms T0)
       (Cristian.of_ms ticks_per_ms Ts) (Cristian.of_ms ticks_per_ms T1)
     = Returned v
     ∧ Cristian.RTT v = T1 - T0
     ∧ Cristian.one_way_delay v = Z.quot (Cristian.RTT v) 2
     ∧ Cristian.synchronized_time v
       = Cristian.of_ms ticks_per_ms (Ts + Cristian.one_way_delay v))
  ∧ (sampled ticks_per_ms 1200 →
     ∃ v,
       Cristian.cristian ticks_per_ms (Cristian.of_ms ticks_per_ms 1000)
         (Cristian.of_ms ticks_per_ms 1100) (Cristian.of_ms ticks_per_ms 1200)
       = Returned v
       ∧ Cristian.RTT v = 200
       ∧ Cristian.one_way_delay v = 100
       ∧ Cristian.synchronized_time v = Cristian.of_ms ticks_per_ms 1200).
Proof.
  intros Hres H0 Hs H1 _. split.
  - eexists. split; [apply cristian_on_ms; assumption |].
    cbn. repeat split; reflexivity.
  - intros H1200.
    assert (Hsmall : ∀ ms, 0 ≤ ms ≤ 1200 → sampled ticks_per_ms ms).
    { unfold sampled, near_epoch, Cristian.of_ms in *. intros ms Hms. nia. }
    eexists. split; [apply cristian_on_ms; try apply Hsmall; lia |].
    cbn. repeat split; reflexivity.
Qed.

Lemma cristian_computes_witness :
  ∃ v,
    Cristian.cristian 1000000 (Cristian.of_ms 1000000 1000)
      (Cristian.of_ms 1000000 1100) (Cristian.of_ms 1000000 1200)
    = Returned v
    ∧ Cristian.RTT v = 200
    ∧ Cristian.one_way_delay v = 100
    ∧ Cristian.synchronized_time v = Cristian.of_ms 1000000 1200.
Proof.
  assert (S : ∀ ms, 0 ≤ ms ≤ 1200 → sampled 1000000 ms)
    by (unfold sampled, near_epoch, Cristian.of_ms; lia).
  apply (cristian_computes 1000000 1000 1100 1200);
    [lia | apply S; lia | apply S; lia | apply S; lia | lia | apply S; lia].
Defined.

(** C4, as amended. CristianSync never fails with InvalidInput, whatever
    the three timestamps; when T1 < T0 it returns the negative
    RTT = T1 − T0, one_way_delay = RTT / 2 truncated toward zero and
    synchronized_time = Ts + one_way_delay. *)
Theorem cristian_accepts_negative_rtt (ticks_per_ms T0 Ts T1 : Z) :
  0 < ticks_per_ms →
  sampled ticks_per_ms T0 →
  sampled ticks_per_ms Ts →
  sampled ticks_per_ms T1 →
  T1 < T0 →
  (∀ a b c e, Cristian.cristian ticks_per_ms a b c ≠ Reported e)
  ∧ ∃ v,
      Cristian.cristian ticks_per_ms (Cristian.of_ms ticks_per_ms T0)
        (Cristian.of_ms ticks_per_ms Ts) (Cristian.of_ms ticks_per_ms T1)
      = Returned v
      ∧ Cristian.RTT v = T1 - T0
      ∧ Cristian.RTT v < 0
      ∧ Cristian.one_way_delay v = Z.quot (T1 - T0) 2
      ∧ Cristian.synchronized_time v
        = Cristian.of_ms ticks_per_ms (Ts + Cristian.one_way_delay v).
Proof.
  intros Hres H0 Hs H1 Hlt. split.
  - intros a b c e. apply cristian_never_reports.
  - eexists. split; [apply cristian_on_ms; assumption |].
    cbn. repeat split; try reflexivity. lia.
Qed.

Lemma cristian_accepts_negative_rtt_witness :
  ∃ v,
    Cristian.cristian 1000000 (Cristian.of_ms 1000000 1200)
      (Cristian.of_ms 1000000 1100) (Cristian.of_ms 1000000 1000)
    = Returned v
    ∧ Cristian.RTT v = 1000 - 1200
    ∧ Cristian.RTT v < 0
    ∧ Cristian.one_way_delay v = Z.quot (1000 - 1200) 2
    ∧ Cristian.synchronized_time v
      = Cristian.of_ms 1000000 (1100 + Cristian.one_way_delay v).
Proof.
  assert (S : ∀ ms, 0 ≤ ms ≤ 1200 → sampled 1000000 ms)
    by (unfold sampled, near_epoch, Cristian.of_ms; lia).
  apply (cristian_accepts_negative_rtt 1000000 1200 1100 1000);
    [lia | apply S; lia | apply S; lia | apply S; lia | lia].
Defined.

(** C4, as stated, fails: with T0 = 1200, Ts = 1100, T1 = 1000 the round
    trip is negative and the program reports nothing; it returns RTT = -200
    and the time point 1000 ms. *)
Lemma cristian_negative_rtt_not_rejected :
  ¬ (1000 - 1200 < 0 ↔
     Cristian.cristian 1000000 (Cristian.of_ms 1000000 1200)
       (Cristian.of_ms 1000000 1100) (Cristian.of_ms 1000000 1000)
     = Reported InvalidInput).
Proof.
  intros [H _]. specialize (H ltac:(lia)). vm_compute in H. discriminate H.
Qed.

(** C7. CristianSync: one_way_delay is RTT / 2 by truncating division, not
    rounding: for every odd RTT the half is dropped (toward zero), RTT = 201
    gives one_way_delay = 100, and synchronized_time is Ts plus the
    truncated value. *)
Theorem cristian_truncates_half (ticks_per_ms T0 Ts T1 : Z) :
  0 < ticks_per_ms →
  sampled ticks_per_ms T0 →
  sampled ticks_per_ms Ts →
  sampled ticks_per_ms T1 →
  Z.odd (T1 - T0) = true →
  ∃ v,
    Cristian.cristian ticks_per_ms (Cristian.of_ms ticks_per_ms T0)
      (Cristian.of_ms ticks_per_ms Ts) (Cristian.of_ms ticks_per_ms T1)
    = Returned v
    ∧ Cristian.RTT v = T1 - T0
    ∧ (0 < Cristian.RTT v → 2 * Cristian.one_way_delay v = Cristian.RTT v - 1)
    ∧ (Cristian.RTT v < 0 → 2 * Cristian.one_way_delay v = Cristian.RTT v + 1)
    ∧ (Cristian.RTT v = 201 → Cristian.one_way_delay v = 100)
    ∧ Cristian.synchronized_time v
      = Cristian.of_ms ticks_per_ms (Ts + Cristian.one_way_delay v).
Proof.
  intros Hres H0 Hs H1 Hodd.
  eexists. split; [apply cristian_on_ms; assumption |].
  cbn [Cristian.RTT Cristian.one_way_delay Cristian.synchronized_time].
  pose proof (Z.quot_rem (T1 - T0) 2 ltac:(lia)) as Hqr.
  apply Z.odd_spec in Hodd as [m Hm].
  repeat split.
  - intros Hpos.
    pose proof (Z.rem_bound_pos (T1 - T0) 2 ltac:(lia) ltac:(lia)). lia.
  - intros Hneg.
    pose proof (Z.rem_bound_pos_neg (T1 - T0) 2 ltac:(lia) ltac:(lia)). lia.
  - intros ->. reflexivity.
Qed.

Lemma cristian_truncates_half_witness :
  ∃ v,
    Cristian.cristian 1000000 (Cristian.of_ms 1000000 1000)
      (Cristian.of_ms 1000000 1100) (Cristian.of_ms 1000000 1201)
    = Returned v
    ∧ Cristian.RTT v = 1201 - 1000
    ∧ (0 < Cristian.RTT v → 2 * Cristian.one_way_delay v = Cristian.RTT v - 1)
    ∧ (Cristian.RTT v < 0 → 2 * Cristian.one_way_delay v = Cristian.RTT v + 1)
    ∧ (Cristian.RTT v = 201 → Cristian.one_way_delay v = 100)
    ∧ Cristian.synchronized_time v
      = Cristian.of_ms 1000000 (1100 + Cristian.one_way_delay v).
Proof.
  assert (S : ∀ ms, 0 ≤ ms ≤ 1201 → sampled 1000000 ms)
    by (unfold sampled, near_epoch, Cristian.of_ms; lia).
  apply (cristian_truncates_half 1000000 1000 1100 1201);
    [lia | apply S; lia | apply S; lia | apply S; lia | reflexivity].
Defined.

(** ** The printed lines of berkeley.cpp *)

Lemma elem_of_collected_lines master_time (l : list Z) : ∀ i0 e,
  e ∈ collected_lines master_time i0 l ↔
    ∃ (j : nat) (p : Z), l !! j = Some p
      ∧ (e = Berkeley.SlaveTime (i0 + Z.of_nat j + 1) p
         ∨ e = Berkeley.TimeDifference (i0 + Z.of_nat j + 1) (master_time - p)).
Proof.
  induction l as [| t l IH]; intros i0 e; cbn [collected_lines].
  - split; [intros H; inversion H | intros (j & p & H & _); discriminate H].
  - rewrite !elem_of_cons, IH. split.
    + intros [-> | [-> | (j & p & Hj & He)]].
      * exists 0%nat, t. split; [reflexivity | left; f_equal; lia].
      * exists 0%nat, t. split; [reflexivity | right; f_equal; lia].
      * exists (S j), p. split; [exact Hj |].
        replace (i0 + Z.of_nat (S j) + 1) with (i0 + 1 + Z.of_nat j + 1) by lia.
        exact He.
    + intros (j & p & Hj & He). destruct j as [| j].
      * injection Hj as ->. rewrite Z.add_0_r in He.
        destruct He as [-> | ->]; [left | right; left]; reflexivity.
      * right. right. exists j, p. split; [exact Hj |].
        replace (i0 + 1 + Z.of_nat j + 1) with (i0 + Z.of_nat (S j) + 1) by lia.
        exact He.
Qed.

Lemma elem_of_updated_lines (l : list Z) : ∀ i0 e,
  e ∈ updated_lines i0 l ↔
    ∃ (j : nat) (t : Z), l !! j = Some t
      ∧ e = Berkeley.SlaveNewTime (i0 + Z.of_nat j + 1) t.
Proof.
  induction l as [| t l IH]; intros i0 e; cbn [updated_lines].
  - split; [intros H; inversion H | intros (j & p & H & _); discriminate H].
  - rewrite elem_of_cons, IH. split.
    + intros [-> | (j & p & Hj & ->)].
      * exists 0%nat, t. split; [reflexivity | f_equal; lia].
      * exists (S j), p. split; [exact Hj | f_equal; lia].
    + intros (j & p & Hj & ->). destruct j as [| j].
      * injection Hj as ->. left. f_equal. lia.
      * right. exists j, p. split; [exact Hj | f_equal; lia].
Qed.

(** The [Slave i Time] and [Time Difference] lines of a run are those of
    the first loop: one pair per slave, with the slave's reading. *)
Lemma collected_line_of_expected reference participants e :
  e ∈ Berkeley.out (Berkeley.final (expected reference participants)) →
  (∃ label t, e = Berkeley.SlaveTime label t)
  ∨ (∃ label d, e = Berkeley.TimeDifference label d) →
  ∃ (j : nat) (p : Z), participants !! j = Some p
    ∧ (e = Berkeley.SlaveTime (Z.of_nat j + 1) p
       ∨ e = Berkeley.TimeDifference (Z.of_nat j + 1) (reference - p)).
Proof.
  unfold expected.
  cbn [Berkeley.out Berkeley.final].
  rewrite elem_of_cons, !elem_of_app, !elem_of_cons, elem_of_nil.
  rewrite elem_of_collected_lines, elem_of_updated_lines.
  intros [-> | [(j & p & Hj & He) | [[-> | [-> | []]] | (j & t & _ & ->)]]] Hkind.
  - destruct Hkind as [(? & ? & ?) | (? & ? & ?)]; discriminate.
  - exists j, p. split; [exact Hj |]. rewrite Z.add_0_l in He. exact He.
  - destruct Hkind as [(? & ? & ?) | (? & ? & ?)]; discriminate.
  - destruct Hkind as [(? & ? & ?) | (? & ? & ?)]; discriminate.
  - destruct Hkind as [(? & ? & ?) | (? & ? & ?)]; discriminate.
Qed.

(** ** Claims about berkeley.cpp *)

Lemma quot_truncates a b :
  0 < b → Z.abs (b * Z.quot a b) ≤ Z.abs a < Z.abs (b * Z.quot a b) + b.
Proof.
  intros Hb. pose proof (Z.quot_rem a b ltac:(lia)) as E.
  destruct (Z_le_gt_dec 0 a) as [Ha | Ha].
  - pose proof (Z.rem_bound_pos a b Ha Hb).
    pose proof (Z.mul_quot_le a b Ha ltac:(lia)). lia.
  - pose proof (Z.rem_bound_pos_neg a b Hb ltac:(lia)).
    pose proof (Z.mul_quot_ge a b ltac:(lia) ltac:(lia)). lia.
Qed.

Lemma total_constant (k : Z) (l : list Z) :
  Forall (λ d, d = k) l → Spec.total l = k * Z.of_nat (length l).
Proof.
  induction 1 as [| d l -> _ IH]; unfold Spec.total in *; cbn [foldr length];
    lia.
Qed.

(** C1. BerkeleySync: for every reference reading and every non-empty list
    of N participant readings, offset_i = reference − participant_i for each
    participant, average_offset = (sum of the offsets) / N truncated toward
    zero, corrected_reference = reference + average_offset, and
    corrected_participant_i = participant_i + average_offset, with the
    corrected participants (stored and printed) in the order of the input. *)
Theorem berkeley_computes (reference : Z) (participants : list Z) :
  participants ≠ [] →
  no_overflow reference participants = true →
  ∃ v,
    Berkeley.berkeley_on reference participants = Returned v
    ∧ Berkeley.time_differences (Berkeley.final v)
      = (λ p, reference - p) <$> participants
    ∧ Berkeley.sum v = foldr Z.add 0 (Berkeley.time_differences (Berkeley.final v))
    ∧ Berkeley.average_difference v
      = Z.quot (Berkeley.sum v) (Z.of_nat (length participants))
    ∧ Z.abs (Z.of_nat (length participants) * Berkeley.average_difference v)
      ≤ Z.abs (Berkeley.sum v)
      < Z.abs (Z.of_nat (length participants) * Berkeley.average_difference v)
        + Z.of_nat (length participants)
    ∧ Berkeley.synchronized_time v
      = reference + Berkeley.average_difference v
    ∧ Berkeley.slave_times (Berkeley.final v)
      = (λ p, p + Berkeley.average_difference v) <$> participants
    ∧ Berkeley.out (Berkeley.final v)
      = Berkeley.MasterInitialTime reference
          :: collected_lines reference 0 participants
          ++ [ Berkeley.AverageTimeDifference (Berkeley.average_difference v);
               Berkeley.SynchronizedMasterTime (Berkeley.synchronized_time v) ]
          ++ updated_lines 0 (Berkeley.slave_times (Berkeley.final v)).
Proof.
  intros Hne Hsafe.
  exists (expected reference participants).
  split; [apply berkeley_on_returns; assumption |].
  assert (HN : 0 < Z.of_nat (length participants))
    by (destruct participants; [congruence | cbn [length]; lia]).
  cbn. repeat split; try reflexivity.
  - apply quot_truncates, HN.
  - apply quot_truncates, HN.
Qed.

Lemma berkeley_computes_witness :
  ∃ v,
    Berkeley.berkeley_on 100 [107; 100; 99; 101; 97; 103] = Returned v
    ∧ Berkeley.time_differences (Berkeley.final v)
      = (λ p, 100 - p) <$> [107; 100; 99; 101; 97; 103]
    ∧ Berkeley.sum v = foldr Z.add 0 (Berkeley.time_differences (Berkeley.final v))
    ∧ Berkeley.average_difference v
      = Z.quot (Berkeley.sum v) (Z.of_nat (length [107; 100; 99; 101; 97; 103]))
    ∧ Z.abs (Z.of_nat (length [107; 100; 99; 101; 97; 103])
             * Berkeley.average_difference v)
      ≤ Z.abs (Berkeley.sum v)
      < Z.abs (Z.of_nat (length [107; 100; 99; 101; 97; 103])
               * Berkeley.average_difference v)
        + Z.of_nat (length [107; 100; 99; 101; 97; 103])
    ∧ Berkeley.synchronized_time v = 100 + Berkeley.average_difference v
    ∧ Berkeley.slave_times (Berkeley.final v)
      = (λ p, p + Berkeley.average_difference v)
          <$> [107; 100; 99; 101; 97; 103]
    ∧ Berkeley.out (Berkeley.final v)
      = Berkeley.MasterInitialTime 100
          :: collected_lines 100 0 [107; 100; 99; 101; 97; 103]
          ++ [ Berkeley.AverageTimeDifference (Berkeley.average_difference v);
               Berkeley.SynchronizedMasterTime (Berkeley.synchronized_time v) ]
          ++ updated_lines 0 (Berkeley.slave_times (Berkeley.final v)).
Proof.
  apply (berkeley_computes 100 [107; 100; 99; 101; 97; 103]);
    [discriminate | reflexivity].
Defined.

(** The average is truncated toward zero, not floored: offsets that add up
    to -7 over six slaves give -1. *)
Example berkeley_truncates_toward_zero :
  ∃ v,
    Berkeley.berkeley_on 100 [107; 100; 100; 100; 100; 100] = Returned v
    ∧ Berkeley.sum v = -7
    ∧ Berkeley.average_difference v = -1
    ∧ Berkeley.synchronized_time v = 99
    ∧ Berkeley.slave_times (Berkeley.final v) = [106; 99; 99; 99; 99; 99].
Proof.
  eexists. split; [vm_compute; reflexivity |]. repeat split.
Qed.

(** C5. BerkeleySync: for every reference reading and every non-empty
    participant list, corrected_reference − corrected_participant_i equals
    reference − participant_i for every participant i: the offsets are
    preserved, only the common base is shifted. *)
Theorem berkeley_preserves_offsets (reference : Z) (participants : list Z) :
  participants ≠ [] →
  no_overflow reference participants = true →
  ∃ v,
    Berkeley.berkeley_on reference participants = Returned v
    ∧ length (Berkeley.slave_times (Berkeley.final v)) = length participants
    ∧ ∀ (i : nat) (p : Z), participants !! i = Some p →
        ∃ p', Berkeley.slave_times (Berkeley.final v) !! i = Some p'
          ∧ Berkeley.synchronized_time v - p' = reference - p.
Proof.
  intros Hne Hsafe.
  exists (expected reference participants).
  split; [apply berkeley_on_returns; assumption |].
  cbn [expected Berkeley.final Berkeley.slave_times Berkeley.synchronized_time].
  unfold Spec.corrected_participants, Spec.corrected_reference.
  split; [apply length_fmap |].
  intros i p Hi. eexists. rewrite list_lookup_fmap, Hi.
  split; [reflexivity | lia].
Qed.

Lemma berkeley_preserves_offsets_witness :
  ∃ v,
    Berkeley.berkeley_on 100 [107; 100; 99; 101; 97; 103] = Returned v
    ∧ length (Berkeley.slave_times (Berkeley.final v))
      = length [107; 100; 99; 101; 97; 103]
    ∧ ∀ (i : nat) (p : Z), [107; 100; 99; 101; 97; 103] !! i = Some p →
        ∃ p', Berkeley.slave_times (Berkeley.final v) !! i = Some p'
          ∧ Berkeley.synchronized_time v - p' = 100 - p.
Proof.
  apply (berkeley_preserves_offsets 100 [107; 100; 99; 101; 97; 103]);
    [discriminate | reflexivity].
Defined.

(** C6, as amended. BerkeleySync: for every non-empty participant list in
    which every offset reference − participant_i equals the same constant k,
    the computed average_offset equals k, the corrected reference equals
    reference + k, and every corrected participant reading equals
    participant_i + k, which is the reference reading itself. *)
Theorem berkeley_constant_offset (reference k : Z) (participants : list Z) :
  participants ≠ [] →
  no_overflow reference participants = true →
  Forall (λ p, reference - p = k) participants →
  ∃ v,
    Berkeley.berkeley_on reference participants = Returned v
    ∧ Berkeley.average_difference v = k
    ∧ Berkeley.synchronized_time v = reference + k
    ∧ Berkeley.slave_times (Berkeley.final v)
      = (λ p, p + k) <$> participants
    ∧ Forall (λ t, t = reference) (Berkeley.slave_times (Berkeley.final v)).
Proof.
  intros Hne Hsafe Hall.
  exists (expected reference participants).
  split; [apply berkeley_on_returns; assumption |].
  assert (HN : 0 < Z.of_nat (length participants))
    by (destruct participants; [congruence | cbn [length]; lia]).
  assert (Havg : Spec.average_offset reference participants = k).
  { unfold Spec.average_offset.
    rewrite (total_constant k).
    - unfold Spec.offsets. rewrite length_fmap. apply Z.quot_mul. lia.
    - unfold Spec.offsets. apply Forall_fmap.
      eapply Forall_impl; [exact Hall | intros p Hp; exact Hp]. }
  cbn [expected Berkeley.final Berkeley.slave_times Berkeley.synchronized_time
       Berkeley.average_difference].
  unfold Spec.corrected_participants, Spec.corrected_reference.
  rewrite Havg. repeat split.
  apply Forall_fmap. eapply Forall_impl; [exact Hall |].
  intros p Hp. unfold compose. cbn beta in Hp. lia.
Qed.

Lemma berkeley_constant_offset_witness :
  ∃ v,
    Berkeley.berkeley_on 100 [98; 98] = Returned v
    ∧ Berkeley.average_difference v = 2
    ∧ Berkeley.synchronized_time v = 100 + 2
    ∧ Berkeley.slave_times (Berkeley.final v) = (λ p, p + 2) <$> [98; 98]
    ∧ Forall (λ t, t = 100) (Berkeley.slave_times (Berkeley.final v)).
Proof.
  apply (berkeley_constant_offset 100 2 [98; 98]);
    [discriminate | reflexivity | repeat constructor].
Defined.

(** C6, as stated, fails: with reference 100 and two participants at 98
    every offset is 2, and the corrected participants read 100, not 102. *)
Lemma berkeley_constant_offset_not_base_plus_k :
  ¬ (∀ v,
       Berkeley.berkeley_on 100 [98; 98] = Returned v →
       Berkeley.average_difference v = 2
       ∧ Forall (λ t, t = 100 + 2)
           (Berkeley.synchronized_time v
              :: Berkeley.slave_times (Berkeley.final v))).
Proof.
  intros H.
  destruct (H _ eq_refl) as [_ Hall].
  apply Forall_cons in Hall as [_ Hall].
  apply Forall_cons in Hall as [Hfirst _].
  vm_compute in Hfirst. discriminate Hfirst.
Qed.

(** C3, as amended. BerkeleySync: for the empty participant list (N = 0)
    no InvalidInput is reported: both loops run zero times and the average
    is a division by zero, which the code does not guard and whose behaviour
    is undefined; no corrected reading is produced.  No input at all makes
    the computation report an error, and [main] runs it with N = 6. *)
Theorem berkeley_empty_list_divides_by_zero (reference : Z) :
  Berkeley.berkeley_on reference [] = Undefined DivisionByZero
  ∧ (∀ participants e,
       Berkeley.berkeley_on reference participants ≠ Reported e)
  ∧ (∀ rand e, Berkeley.main reference rand ≠ Reported e).
Proof.
  split; [reflexivity |]. split.
  - intros participants e. apply berkeley_never_reports.
    intros i e'. apply at_index_not_reported.
  - intros rand e H. unfold Berkeley.main in H.
    apply bind_reported in H as [H | (v & _ & H)]; [| discriminate].
    revert H. apply berkeley_never_reports.
    intros i e'. apply simulated_clock_never_reports.
Qed.

(** C3, as stated, fails: on the empty list the run does not end in a
    reported InvalidInput. *)
Lemma berkeley_empty_list_not_rejected :
  ¬ (Berkeley.berkeley_on 100 [] = Reported InvalidInput).
Proof. vm_compute. discriminate. Qed.

(** The first loop of [main] fills [slave_times] with the six simulated
    readings and [time_differences] with their differences. *)
Lemma first_loop_of_main (master_time : Z) (rand : nat → Z) :
  (∀ k, (k < 6)%nat → 0 ≤ rand k ≤ int_max) →
  long_min + 10 ≤ master_time ≤ long_max - 10 →
  ∃ s1,
    Berkeley.first_loop 6 master_time
      (Berkeley.simulated_clock master_time rand) = Returned s1
    ∧ Berkeley.slave_times s1 = simulated_readings master_time rand
    ∧ Berkeley.time_differences s1
      = Spec.offsets master_time (simulated_readings master_time rand).
Proof.
  intros Hrand Hm. eexists. split.
  { unfold Berkeley.first_loop, for_int.
    change (Z.to_nat (6 - 0))
      with (length (simulated_readings master_time rand)).
    rewrite (collect_loop master_time _ (simulated_readings master_time rand) 0).
    - reflexivity.
    - intros j p Hj. rewrite Z.add_0_l.
      apply simulated_readings_lookup in Hj as [Hj ->].
      apply simulated_clock_returns; [apply Hrand, Hj | lia].
    - apply (λ H, forallb_of_Forall _ _ _ H
                    (simulated_readings_spread master_time rand Hrand)).
      intros p Hp. apply in_long_spec. cbn beta in Hp.
      unfold long_min, long_max in *. lia. }
  split; reflexivity.
Qed.

(** C8, as amended. BerkeleySync data model: the master reading is kept
    apart from the participants: when the first loop ends, [slave_times]
    holds exactly the six simulated slave readings
    master + (rand() % 11) − 5, in the order of the slaves, and the run goes
    on from them; a slave's reading coincides with the master reading
    exactly when its draw leaves remainder 5, that is when its offset is
    0. *)
Theorem slave_meets_master_iff_offset_zero (master_time : Z) (rand : nat → Z) :
  (∀ k, (k < 6)%nat → 0 ≤ rand k ≤ int_max) →
  long_min + 10 ≤ master_time ≤ long_max - 10 →
  ∃ s1 v,
    Berkeley.first_loop 6 master_time
      (Berkeley.simulated_clock master_time rand) = Returned s1
    ∧ Berkeley.main master_time rand = Returned (0, v)
    ∧ Berkeley.slave_times s1
      = (λ k, master_time + (Z.rem (rand k) 11 - 5)) <$> seq 0 6
    ∧ Berkeley.time_differences (Berkeley.final v)
      = (λ p, master_time - p) <$> Berkeley.slave_times s1
    ∧ Berkeley.slave_times (Berkeley.final v)
      = (λ p, p + Berkeley.average_difference v) <$> Berkeley.slave_times s1
    ∧ (∀ (k : nat) (t : Z), Berkeley.slave_times s1 !! k = Some t →
         (k < 6)%nat
         ∧ t = master_time + (Z.rem (rand k) 11 - 5)
         ∧ (t = master_time ↔ Z.rem (rand k) 11 = 5)).
Proof.
  intros Hrand Hm.
  destruct (first_loop_of_main master_time rand Hrand Hm)
    as (s1 & Hloop & Hslaves & _).
  exists s1, (expected master_time (simulated_readings master_time rand)).
  split; [exact Hloop |].
  split; [apply main_returns; assumption |].
  rewrite Hslaves.
  split; [reflexivity |]. split; [reflexivity |]. split; [reflexivity |].
  intros k t Hk.
  apply simulated_readings_lookup in Hk as [Hk ->].
  repeat split; try assumption; lia.
Qed.

Lemma slave_meets_master_iff_offset_zero_witness :
  ∃ s1 v,
    Berkeley.first_loop 6 1700000000
      (Berkeley.simulated_clock 1700000000 (λ k, 5 + 12 * Z.of_nat k))
    = Returned s1
    ∧ Berkeley.main 1700000000 (λ k, 5 + 12 * Z.of_nat k) = Returned (0, v)
    ∧ Berkeley.slave_times s1
      = (λ k, 1700000000 + (Z.rem (5 + 12 * Z.of_nat k) 11 - 5)) <$> seq 0 6
    ∧ Berkeley.time_differences (Berkeley.final v)
      = (λ p, 1700000000 - p) <$> Berkeley.slave_times s1
    ∧ Berkeley.slave_times (Berkeley.final v)
      = (λ p, p + Berkeley.average_difference v) <$> Berkeley.slave_times s1
    ∧ (∀ (k : nat) (t : Z), Berkeley.slave_times s1 !! k = Some t →
         (k < 6)%nat
         ∧ t = 1700000000 + (Z.rem (5 + 12 * Z.of_nat k) 11 - 5)
         ∧ (t = 1700000000 ↔ Z.rem (5 + 12 * Z.of_nat k) 11 = 5)).
Proof.
  apply (slave_meets_master_iff_offset_zero 1700000000
           (λ k, 5 + 12 * Z.of_nat k)).
  - intros k Hk. unfold int_max. lia.
  - unfold long_min, long_max. lia.
Defined.

(** C8, as stated, fails: when the first draw of [rand] is 5 the first
    slave's offset is 0, and the reading pushed into [slave_times] for it is
    the master reading. *)
Lemma slave_reading_can_equal_master :
  ¬ (∀ s1,
       Berkeley.first_loop 6 1700000000
         (Berkeley.simulated_clock 1700000000 (λ k, 5 + 12 * Z.of_nat k))
       = Returned s1 →
       ∀ t, t ∈ Berkeley.slave_times s1 → t ≠ 1700000000).
Proof.
  intros H.
  refine (H _ _ 1700000000 _ eq_refl).
  - vm_compute. reflexivity.
  - cbn [Berkeley.slave_times]. apply elem_of_cons. left. reflexivity.
Qed.

(** C9. For both BerkeleySync and CristianSync, two runs on the same
    inputs produce identical outputs: the result of [main] is determined by
    the master reading and the six draws of [rand] (Berkeley) and by the
    three samples of the clock (Cristian), whatever else differs. *)
Theorem runs_are_deterministic (ticks_per_ms master_time : Z)
    (rand rand' now now' : nat → Z) :
  (∀ k, (k < 6)%nat → rand k = rand' k) →
  (∀ k, (k < 3)%nat → now k = now' k) →
  Berkeley.main master_time rand = Berkeley.main master_time rand'
  ∧ Cristian.main ticks_per_ms now = Cristian.main ticks_per_ms now'.
Proof.
  intros Hrand Hnow. split.
  - unfold Berkeley.main.
    rewrite (berkeley_ext 6 master_time
               (Berkeley.simulated_clock master_time rand)
               (Berkeley.simulated_clock master_time rand'));
      [reflexivity |].
    intros i Hi. unfold Berkeley.simulated_clock.
    rewrite Hrand by lia. reflexivity.
  - unfold Cristian.main. rewrite !Hnow by lia. reflexivity.
Qed.

Lemma runs_are_deterministic_witness :
  Berkeley.main 1700000000 (λ k, 5 + 3 * Z.of_nat k)
  = Berkeley.main 1700000000
      (λ k, if (k <? 6)%nat then 5 + 3 * Z.of_nat k else 0)
  ∧ Cristian.main 1000000 (λ k, 1700000000000000000 + 100000000 * Z.of_nat k)
    = Cristian.main 1000000
        (λ k, if (k <? 3)%nat
              then 1700000000000000000 + 100000000 * Z.of_nat k
              else 0).
Proof.
  apply (runs_are_deterministic 1000000 1700000000).
  - intros k Hk. apply Nat.ltb_lt in Hk. rewrite Hk. reflexivity.
  - intros k Hk. apply Nat.ltb_lt in Hk. rewrite Hk. reflexivity.
Defined.

(** C10. In the reference Berkeley scenario every generated offset
    (rand() % 11) − 5 lies in [−5, 5], so every slave's initial reading is
    within 5 seconds of the master reading and every initial difference
    master − slave lies in [−5, 5]. *)
Theorem simulated_offsets_within_five (master_time : Z) (rand : nat → Z) :
  (∀ k, (k < 6)%nat → 0 ≤ rand k ≤ int_max) →
  long_min + 10 ≤ master_time ≤ long_max - 10 →
  ∃ v,
    Berkeley.main master_time rand = Returned (0, v)
    ∧ (∀ k, (k < 6)%nat →
         ∃ offset, Berkeley.random_offset (rand k) = Returned offset
           ∧ -5 ≤ offset ≤ 5)
    ∧ (∀ label t,
         Berkeley.SlaveTime label t ∈ Berkeley.out (Berkeley.final v) →
         Z.abs (t - master_time) ≤ 5)
    ∧ (∀ label d,
         Berkeley.TimeDifference label d ∈ Berkeley.out (Berkeley.final v) →
         -5 ≤ d ≤ 5)
    ∧ length (Berkeley.time_differences (Berkeley.final v)) = 6%nat
    ∧ Forall (λ d, -5 ≤ d ≤ 5) (Berkeley.time_differences (Berkeley.final v)).
Proof.
  intros Hrand Hm.
  exists (expected master_time (simulated_readings master_time rand)).
  split; [apply main_returns; assumption |].
  pose proof (simulated_readings_spread master_time rand Hrand) as Hspread.
  split; [| split; [| split; [| split]]].
  - intros k Hk. eexists. apply random_offset_returns, Hrand, Hk.
  - intros label t Hin.
    apply collected_line_of_expected in Hin as (j & p & Hj & He);
      [| left; eauto].
    destruct He as [He | He]; [| discriminate He].
    injection He as -> ->.
    pose proof (Forall_lookup_1 _ _ _ _ Hspread Hj) as Hp. cbn beta in Hp. lia.
  - intros label d Hin.
    apply collected_line_of_expected in Hin as (j & p & Hj & He);
      [| right; eauto].
    destruct He as [He | He]; [discriminate He |].
    injection He as -> ->.
    pose proof (Forall_lookup_1 _ _ _ _ Hspread Hj) as Hp. cbn beta in Hp. lia.
  - reflexivity.
  - cbn [expected Berkeley.final Berkeley.time_differences].
    unfold Spec.offsets. apply Forall_fmap.
    eapply Forall_impl; [exact Hspread |].
    intros p Hp. unfold compose. cbn beta in Hp. lia.
Qed.

Lemma simulated_offsets_within_five_witness :
  ∃ v,
    Berkeley.main 1700000000 (λ k, 1804289383 + 7919 * Z.of_nat k)
    = Returned (0, v)
    ∧ (∀ k, (k < 6)%nat →
         ∃ offset,
           Berkeley.random_offset (1804289383 + 7919 * Z.of_nat k)
           = Returned offset
           ∧ -5 ≤ offset ≤ 5)
    ∧ (∀ label t,
         Berkeley.SlaveTime label t ∈ Berkeley.out (Berkeley.final v) →
         Z.abs (t - 1700000000) ≤ 5)
    ∧ (∀ label d,
         Berkeley.TimeDifference label d ∈ Berkeley.out (Berkeley.final v) →
         -5 ≤ d ≤ 5)
    ∧ length (Berkeley.time_differences (Berkeley.final v)) = 6%nat
    ∧ Forall (λ d, -5 ≤ d ≤ 5) (Berkeley.time_differences (Berkeley.final v)).
Proof.
  apply (simulated_offsets_within_five 1700000000
           (λ k, 1804289383 + 7919 * Z.of_nat k)).
  - intros k Hk. unfold int_max. lia.
  - unfold long_min, long_max. lia.
Defined.

(** ** Further properties of cristian.cpp *)

Lemma quot_window a b :
  0 ≤ a → 0 < b → Z.quot a b * b ≤ a < (Z.quot a b + 1) * b.
Proof.
  intros Ha Hb. pose proof (Z.quot_rem a b ltac:(lia)) as E.
  pose proof (Z.rem_bound_pos a b Ha Hb). nia.
Qed.

(** X1. On clock samples taken at the clock's own resolution the round trip
    is the tick difference cut down to whole milliseconds, and the client is
    set to the server time plus half of it in whole milliseconds: when the
    clock did not go backwards, less than one millisecond of the round trip
    and less than two milliseconds of its double half are dropped. *)
Theorem cristian_drops_fraction_of_millisecond (ticks_per_ms T0 T_server T1 : Z) :
  0 < ticks_per_ms →
  near_epoch T0 → near_epoch T_server → near_epoch T1 →
  T0 ≤ T1 →
  ∃ v,
    Cristian.cristian ticks_per_ms T0 T_server T1 = Returned v
    ∧ Cristian.RTT v = Z.quot (T1 - T0) ticks_per_ms
    ∧ Cristian.RTT v * ticks_per_ms ≤ T1 - T0
      < (Cristian.RTT v + 1) * ticks_per_ms
    ∧ Cristian.synchronized_time v
      = T_server + Cristian.one_way_delay v * ticks_per_ms
    ∧ 0 ≤ Cristian.one_way_delay v
    ∧ 2 * (Cristian.one_way_delay v * ticks_per_ms) ≤ T1 - T0
      < 2 * (Cristian.one_way_delay v * ticks_per_ms) + 2 * ticks_per_ms.
Proof.
  intros Hres H0 Hs H1 Hle.
  eexists. split; [apply cristian_on_ticks; assumption |].
  cbn [Cristian.RTT Cristian.one_way_delay Cristian.synchronized_time].
  pose proof (quot_window (T1 - T0) ticks_per_ms ltac:(lia) Hres) as Hw.
  pose proof (Z.quot_pos (T1 - T0) ticks_per_ms ltac:(lia) Hres) as Hq.
  pose proof (quot_window _ 2 Hq ltac:(lia)) as Hh.
  pose proof (Z.quot_pos _ 2 Hq ltac:(lia)) as Hhq.
  repeat split; try reflexivity; try lia; nia.
Qed.

Lemma cristian_drops_fraction_of_millisecond_witness :
  ∃ v,
    Cristian.cristian 1000000 1700000000000000000 1700000000100500000
      1700000000201999999
    = Returned v
    ∧ Cristian.RTT v
      = Z.quot (1700000000201999999 - 1700000000000000000) 1000000
    ∧ Cristian.RTT v * 1000000
      ≤ 1700000000201999999 - 1700000000000000000
      < (Cristian.RTT v + 1) * 1000000
    ∧ Cristian.synchronized_time v
      = 1700000000100500000 + Cristian.one_way_delay v * 1000000
    ∧ 0 ≤ Cristian.one_way_delay v
    ∧ 2 * (Cristian.one_way_delay v * 1000000)
      ≤ 1700000000201999999 - 1700000000000000000
      < 2 * (Cristian.one_way_delay v * 1000000) + 2 * 1000000.
Proof.
  apply (cristian_drops_fraction_of_millisecond 1000000);
    unfold near_epoch; lia.
Defined.

(** X2. When the server's sample lies between the client's two samples
    (one clock that does not go backwards, as in [main]), the synchronized
    time is off the client's own time of reception by less than half the
    round trip plus one millisecond, and is never before the request. *)
Theorem cristian_error_within_half_round_trip (ticks_per_ms T0 T_server T1 : Z) :
  0 < ticks_per_ms →
  near_epoch T0 → near_epoch T_server → near_epoch T1 →
  T0 ≤ T_server ≤ T1 →
  ∃ v,
    Cristian.cristian ticks_per_ms T0 T_server T1 = Returned v
    ∧ T0 ≤ T_server ≤ Cristian.synchronized_time v
    ∧ 2 * Z.abs (Cristian.synchronized_time v - T1)
      < (T1 - T0) + 2 * ticks_per_ms.
Proof.
  intros Hres H0 Hs H1 Hbetween.
  eexists. split; [apply cristian_on_ticks; assumption |].
  cbn [Cristian.synchronized_time].
  pose proof (quot_window (T1 - T0) ticks_per_ms ltac:(lia) Hres) as Hw.
  pose proof (Z.quot_pos (T1 - T0) ticks_per_ms ltac:(lia) Hres) as Hq.
  pose proof (quot_window _ 2 Hq ltac:(lia)) as Hh.
  pose proof (Z.quot_pos _ 2 Hq ltac:(lia)) as Hhq.
  split; nia.
Qed.

Lemma cristian_error_within_half_round_trip_witness :
  ∃ v,
    Cristian.cristian 1000000 1700000000000000000 1700000000100500000
      1700000000201999999
    = Returned v
    ∧ 1700000000000000000 ≤ 1700000000100500000
      ≤ Cristian.synchronized_time v
    ∧ 2 * Z.abs (Cristian.synchronized_time v - 1700000000201999999)
      < (1700000000201999999 - 1700000000000000000) + 2 * 1000000.
Proof.
  apply (cristian_error_within_half_round_trip 1000000);
    unfold near_epoch; lia.
Defined.

(** X3. The result does not depend on the epoch: moving the three samples
    by the same number of ticks leaves the round trip and the one-way delay
    as they are and moves the synchronized time by that number. *)
Theorem cristian_epoch_independent (ticks_per_ms T0 T_server T1 shift : Z) :
  0 < ticks_per_ms →
  near_epoch T0 → near_epoch T_server → near_epoch T1 →
  near_epoch (T0 + shift) → near_epoch (T_server + shift) →
  near_epoch (T1 + shift) →
  ∃ v v',
    Cristian.cristian ticks_per_ms T0 T_server T1 = Returned v
    ∧ Cristian.cristian ticks_per_ms (T0 + shift) (T_server + shift)
        (T1 + shift) = Returned v'
    ∧ Cristian.RTT v' = Cristian.RTT v
    ∧ Cristian.one_way_delay v' = Cristian.one_way_delay v
    ∧ Cristian.synchronized_time v' = Cristian.synchronized_time v + shift.
Proof.
  intros Hres H0 Hs H1 H0' Hs' H1'.
  do 2 eexists.
  split; [apply cristian_on_ticks; assumption |].
  split; [apply cristian_on_ticks; assumption |].
  cbn [Cristian.RTT Cristian.one_way_delay Cristian.synchronized_time].
  replace (T1 + shift - (T0 + shift)) with (T1 - T0) by lia.
  repeat split. lia.
Qed.

Lemma cristian_epoch_independent_witness :
  ∃ v v',
    Cristian.cristian 1000000 1000000000 1100000000 1201000000 = Returned v
    ∧ Cristian.cristian 1000000 (1000000000 + 1700000000000000000)
        (1100000000 + 1700000000000000000)
        (1201000000 + 1700000000000000000) = Returned v'
    ∧ Cristian.RTT v' = Cristian.RTT v
    ∧ Cristian.one_way_delay v' = Cristian.one_way_delay v
    ∧ Cristian.synchronized_time v'
      = Cristian.synchronized_time v + 1700000000000000000.
Proof.
  apply (cristian_epoch_independent 1000000); unfold near_epoch; lia.
Defined.

(** X4. [main], when the clock advanced by at least the 100 ms of each
    [sleep_for] between the samples: the program exits with status 0 after
    printing its four lines in order, the round trip it prints is at least
    200 ms, and the synchronized time it prints is not before the server
    time it prints. *)
Theorem cristian_main_after_sleeps (ticks_per_ms : Z) (now : nat → Z) :
  0 < ticks_per_ms →
  near_epoch (now 0%nat) → near_epoch (now 1%nat) → near_epoch (now 2%nat) →
  now 0%nat + 100 * ticks_per_ms ≤ now 1%nat →
  now 1%nat + 100 * ticks_per_ms ≤ now 2%nat →
  ∃ server client rtt sync,
    Cristian.main ticks_per_ms now
    = Returned (0, [ Cristian.ServerTime server;
                     Cristian.ClientActualTime client;
                     Cristian.RoundTripTime rtt;
                     Cristian.SynchronizedClientTime sync ])
    ∧ server = Cristian.to_time_t ticks_per_ms (now 1%nat)
    ∧ client = Cristian.to_time_t ticks_per_ms (now 2%nat)
    ∧ 200 ≤ rtt
    ∧ server ≤ sync
    ∧ server ≤ client.
Proof.
  intros Hres H0 Hs H1 Hfirst Hsecond.
  unfold Cristian.main.
  rewrite (cristian_on_ticks ticks_per_ms Hres _ _ _ H0 Hs H1).
  rewrite bind_Returned. cbn zeta. unfold Cristian.report.
  cbn [Cristian.RTT Cristian.server_time Cristian.client_actual
       Cristian.client_sync].
  do 4 eexists. split; [reflexivity |].
  assert (Hrtt : 200 ≤ Z.quot (now 2%nat - now 0%nat) ticks_per_ms).
  { apply Z.quot_le_lower_bound; [exact Hres | lia]. }
  assert (Hhalf : 100 ≤ Z.quot (Z.quot (now 2%nat - now 0%nat) ticks_per_ms) 2).
  { apply Z.quot_le_lower_bound; lia. }
  repeat split; try assumption.
  - unfold Cristian.to_time_t. apply Z.quot_le_mono; nia.
  - unfold Cristian.to_time_t. apply Z.quot_le_mono; nia.
Qed.

Lemma cristian_main_after_sleeps_witness :
  ∃ server client rtt sync,
    Cristian.main 1000000
      (λ k, 1700000000000000000 + 100250000 * Z.of_nat k)
    = Returned (0, [ Cristian.ServerTime server;
                     Cristian.ClientActualTime client;
                     Cristian.RoundTripTime rtt;
                     Cristian.SynchronizedClientTime sync ])
    ∧ server
      = Cristian.to_time_t 1000000
          (1700000000000000000 + 100250000 * Z.of_nat 1)
    ∧ client
      = Cristian.to_time_t 1000000
          (1700000000000000000 + 100250000 * Z.of_nat 2)
    ∧ 200 ≤ rtt
    ∧ server ≤ sync
    ∧ server ≤ client.
Proof.
  apply (cristian_main_after_sleeps 1000000
           (λ k, 1700000000000000000 + 100250000 * Z.of_nat k));
    unfold near_epoch; lia.
Defined.

(** ** Further properties of berkeley.cpp: what can go wrong *)

Lemma bind_undefined {A B : Type} (m : outcome A) (k : A → outcome B) f :
  m ≫= k = Undefined f →
  m = Undefined f ∨ ∃ a, m = Returned a ∧ k a = Undefined f.
Proof.
  destruct m as [a | e | f']; cbn; intros H.
  - right. exists a. split; [reflexivity | exact H].
  - discriminate.
  - left. congruence.
Qed.

Lemma as_long_undefined z f : as_long z = Undefined f → f = SignedOverflow.
Proof. unfold as_long. destruct (fits _ _ _); congruence. Qed.

Lemma as_int_undefined z f : as_int z = Undefined f → f = SignedOverflow.
Proof. unfold as_int. destruct (fits _ _ _); congruence. Qed.

Lemma at_index_in_range (v : list Z) (i : Z) :
  0 ≤ i < Z.of_nat (length v) → ∃ x, at_index v i = Returned x.
Proof.
  intros Hi. unfold at_index.
  destruct (Z.ltb_spec i 0) as [? | _]; [lia |].
  destruct (lookup_lt_is_Some_2 v (Z.to_nat i) ltac:(lia)) as [x Hx].
  exists x. rewrite Hx. reflexivity.
Qed.

(** A loop that keeps an invariant [Inv i s] (at the start of iteration
    [i]) and whose body cannot fail with [f] under it, cannot fail with [f],
    and ends in the invariant. *)
Lemma for_upto_safe {S : Type} (Inv : Z → S → Prop) (f : fault)
    (body : Z → S → outcome S) (count : nat) : ∀ i s,
  Inv i s →
  (∀ j t, i ≤ j < i + Z.of_nat count → Inv j t →
     body j t ≠ Undefined f
     ∧ ∀ t', body j t = Returned t' → Inv (j + 1) t') →
  for_upto count i body s ≠ Undefined f
  ∧ ∀ s', for_upto count i body s = Returned s' → Inv (i + Z.of_nat count) s'.
Proof.
  induction count as [| k IH]; intros i s Hinv Hbody.
  - split; [discriminate |]. intros s' [= <-].
    rewrite Z.add_0_r. exact Hinv.
  - destruct (Hbody i s ltac:(lia) Hinv) as [Hsafe Hnext].
    rewrite for_upto_S.
    destruct (body i s) as [t | e | f'] eqn:E.
    + rewrite bind_Returned.
      destruct (IH (i + 1) t (Hnext t eq_refl)) as [IHsafe IHinv].
      { intros j u Hj. apply Hbody. lia. }
      split; [exact IHsafe |].
      intros s' Hs'. replace (i + Z.of_nat (Datatypes.S k)) with (i + 1 + Z.of_nat k)
        by lia.
      apply IHinv, Hs'.
    + split; discriminate.
    + split; [cbn; congruence | discriminate].
Qed.

(** The vectors have [NUM_SLAVES] elements when the second and the third
    loop index them, so signed overflow is the only fault [berkeley] can
    add to those of the slaves' clocks, but for the division when
    [NUM_SLAVES] is 0. *)
Lemma berkeley_only_overflows (NUM_SLAVES master_time : Z)
    (slave_clock : Z → outcome Z) (f : fault) :
  f ≠ SignedOverflow →
  (f = DivisionByZero → NUM_SLAVES ≠ 0) →
  (∀ i, slave_clock i ≠ Undefined f) →
  Berkeley.berkeley NUM_SLAVES master_time slave_clock ≠ Undefined f.
Proof.
  intros Hf Hzero Hclock. unfold Berkeley.berkeley, for_int.
  rewrite Z.sub_0_r. set (n := Z.to_nat NUM_SLAVES).
  intros H.
  pose (Filled := λ (j : Z) (s : Berkeley.vectors),
          0 ≤ j
          ∧ length (Berkeley.slave_times s) = Z.to_nat j
          ∧ length (Berkeley.time_differences s) = Z.to_nat j).
  apply bind_undefined in H as [H | (s1 & Hs1 & H)].
  { revert H. apply (for_upto_safe Filled).
    - repeat split; cbn; lia.
    - intros j t Hj (Hj0 & Hst & Htd). split.
      + unfold Berkeley.collect. intros H.
        apply bind_undefined in H as [H | (p & _ & H)]; [exact (Hclock _ H) |].
        apply bind_undefined in H as [H | (d & _ & H)]; [| discriminate H].
        apply as_long_undefined in H. congruence.
      + unfold Berkeley.collect. intros t' H.
        destruct (slave_clock j) as [p | |]; try discriminate H.
        rewrite bind_Returned in H.
        destruct (long_sub master_time p) as [d | |]; try discriminate H.
        injection H as <-. repeat split; cbn; rewrite ?length_app; cbn; lia. }
  apply (for_upto_safe Filled f) in Hs1 as (_ & Hst & Htd).
  2:{ repeat split; cbn; lia. }
  2:{ intros j t Hj (Hj0 & Hst & Htd). split.
      - unfold Berkeley.collect. intros H'.
        apply bind_undefined in H' as [H' | (p & _ & H')];
          [exact (Hclock _ H') |].
        apply bind_undefined in H' as [H' | (d & _ & H')]; [| discriminate H'].
        apply as_long_undefined in H'. congruence.
      - unfold Berkeley.collect. intros t' H'.
        destruct (slave_clock j) as [p | |]; try discriminate H'.
        rewrite bind_Returned in H'.
        destruct (long_sub master_time p) as [d | |]; try discriminate H'.
        injection H' as <-. repeat split; cbn; rewrite ?length_app; cbn; lia. }
  apply bind_undefined in H as [H | (total & _ & H)].
  { revert H. apply (for_upto_safe (λ _ _, True)); [exact I |].
    intros j acc Hj _. split; [| trivial].
    unfold Berkeley.accumulate. intros H.
    destruct (at_index_in_range (Berkeley.time_differences s1) j ltac:(lia))
      as [d Hd].
    rewrite Hd, bind_Returned in H.
    apply as_long_undefined in H. congruence. }
  apply bind_undefined in H as [H | (average & _ & H)].
  { unfold long_div in H. destruct (Z.eqb_spec NUM_SLAVES 0) as [E | _].
    - injection H as <-. exact (Hzero eq_refl E).
    - apply as_long_undefined in H. congruence. }
  apply bind_undefined in H as [H | (sync & _ & H)].
  { apply as_long_undefined in H. congruence. }
  apply bind_undefined in H as [H | (s4 & _ & H)]; [| discriminate H].
  revert H.
  apply (for_upto_safe
           (λ _ s, length (Berkeley.slave_times s) = Z.to_nat (0 + Z.of_nat n))).
  - cbn. exact Hst.
  - intros j t Hj Hlen. split.
    + unfold Berkeley.update. intros H.
      destruct (at_index_in_range (Berkeley.slave_times t) j ltac:(lia))
        as [x Hx].
      rewrite Hx, bind_Returned in H.
      apply bind_undefined in H as [H | (t' & _ & H)]; [| discriminate H].
      apply as_long_undefined in H. congruence.
    + unfold Berkeley.update. intros t' H.
      destruct (at_index (Berkeley.slave_times t) j) as [x | |];
        try discriminate H.
      rewrite bind_Returned in H.
      destruct (long_add x average) as [x' | |]; try discriminate H.
      injection H as <-. cbn. rewrite length_insert. exact Hlen.
Qed.

(** X5. For every [NUM_SLAVES], zero and negative included, and whatever
    the slaves' clocks return, the three loops never index a vector outside
    its bounds; and the only division, by [NUM_SLAVES], is by zero only when
    [NUM_SLAVES] is 0. *)
Theorem berkeley_stays_in_bounds (NUM_SLAVES master_time : Z)
    (slave_clock : Z → outcome Z) (f : fault) :
  f ≠ SignedOverflow →
  (f = DivisionByZero → NUM_SLAVES ≠ 0) →
  (∀ i, slave_clock i ≠ Undefined f) →
  Berkeley.berkeley NUM_SLAVES master_time slave_clock ≠ Undefined f.
Proof. apply berkeley_only_overflows. Qed.

Lemma berkeley_stays_in_bounds_witness :
  Berkeley.berkeley 6 1700000000 (λ i, Returned (1700000000 + 2 * i - 5))
  ≠ Undefined OutOfBounds.
Proof.
  apply (berkeley_stays_in_bounds 6 1700000000
           (λ i, Returned (1700000000 + 2 * i - 5)) OutOfBounds);
    [discriminate | discriminate | intros i; discriminate].
Defined.

Lemma simulated_clock_only_overflows master_time rand i f :
  Berkeley.simulated_clock master_time rand i = Undefined f →
  f = SignedOverflow.
Proof.
  unfold Berkeley.simulated_clock, Berkeley.random_offset, int_rem, int_sub.
  cbn [Z.eqb]. intros H.
  apply bind_undefined in H as [H | (o & _ & H)];
    [| exact (as_long_undefined _ _ H)].
  apply bind_undefined in H as [H | (m & _ & H)];
    [| exact (as_int_undefined _ _ H)].
  apply bind_undefined in H as [H | (q & _ & H)];
    [exact (as_int_undefined _ _ H) | discriminate H].
Qed.

(** X6. Whatever [time(0)] and [rand()] return, [main] either returns with
    exit status 0 or runs into a signed overflow: it never divides by zero,
    never indexes a vector out of bounds and never reports an error. *)
Theorem berkeley_main_returns_or_overflows (master_time : Z) (rand : nat → Z) :
  (∃ v, Berkeley.main master_time rand = Returned (0, v))
  ∨ Berkeley.main master_time rand = Undefined SignedOverflow.
Proof.
  unfold Berkeley.main.
  destruct (Berkeley.berkeley 6 master_time
              (Berkeley.simulated_clock master_time rand))
    as [v | e | f] eqn:E.
  - left. exists v. reflexivity.
  - exfalso. revert E. apply berkeley_never_reports.
    intros i e'. apply simulated_clock_never_reports.
  - right. destruct f; [reflexivity | exfalso | exfalso]; revert E;
      apply berkeley_only_overflows; try discriminate;
      intros i H; apply simulated_clock_only_overflows in H; discriminate H.
Qed.

Lemma as_long_overflows z : in_long z = false → as_long z = Undefined SignedOverflow.
Proof. unfold in_long, as_long. intros ->. reflexivity. Qed.

Section BerkeleyOverflow.

Variable master_time : Z.
Variable slave_clock : Z → outcome Z.

Lemma collect_loop_overflows (l : list Z) : ∀ (i0 : Z) (s : Berkeley.vectors),
  (∀ (j : nat) (p : Z), l !! j = Some p →
     slave_clock (i0 + Z.of_nat j) = Returned p) →
  forallb (λ p, in_long (master_time - p)) l = false →
  for_upto (length l) i0 (Berkeley.collect master_time slave_clock) s
  = Undefined SignedOverflow.
Proof.
  induction l as [| p l IH]; intros i0 s Hclock Hfit; [discriminate Hfit |].
  pose proof (Hclock 0%nat p eq_refl) as H0.
  cbn [Z.of_nat] in H0. rewrite Z.add_0_r in H0.
  cbn [forallb length] in *. rewrite for_upto_S.
  destruct (in_long (master_time - p)) eqn:Hp.
  - apply in_long_spec in Hp.
    rewrite (collect_returns _ _ _ _ _ H0 Hp), bind_Returned.
    apply IH; [| exact Hfit].
    intros j q Hj. rewrite <- (Hclock (S j) q Hj). f_equal. lia.
  - unfold Berkeley.collect, long_sub.
    rewrite H0, bind_Returned, (as_long_overflows _ Hp). reflexivity.
Qed.

Lemma accumulate_loop_overflows (l : list Z) : ∀ (pre : list Z) (acc : Z),
  running_sums_fit acc l = false →
  for_upto (length l) (Z.of_nat (length pre))
    (Berkeley.accumulate (pre ++ l)) acc
  = Undefined SignedOverflow.
Proof.
  induction l as [| d l IH]; intros pre acc Hfit; [discriminate Hfit |].
  cbn [running_sums_fit length] in *. rewrite for_upto_S.
  destruct (in_long (acc + d)) eqn:Hd.
  - apply in_long_spec in Hd.
    rewrite (accumulate_returns _ _ _ _ Hd), bind_Returned.
    replace (pre ++ d :: l) with ((pre ++ [d]) ++ l)
      by (rewrite <- app_assoc; reflexivity).
    replace (Z.of_nat (length pre) + 1) with (Z.of_nat (length (pre ++ [d])))
      by (rewrite length_app; cbn; lia).
    apply IH, Hfit.
  - unfold Berkeley.accumulate, long_add.
    rewrite at_index_middle, bind_Returned, (as_long_overflows _ Hd).
    reflexivity.
Qed.

Lemma update_loop_overflows (average : Z) (l : list Z) :
  ∀ (pre diffs : list Z) (o : list Berkeley.event),
  forallb (λ p, in_long (p + average)) l = false →
  for_upto (length l) (Z.of_nat (length pre)) (Berkeley.update average)
    {| Berkeley.slave_times := pre ++ l;
       Berkeley.time_differences := diffs;
       Berkeley.out := o |}
  = Undefined SignedOverflow.
Proof.
  induction l as [| p l IH]; intros pre diffs o Hfit; [discriminate Hfit |].
  cbn [forallb length] in *. rewrite for_upto_S.
  destruct (in_long (p + average)) eqn:Hp.
  - apply in_long_spec in Hp.
    rewrite (update_returns _ _ _ _ _ _ Hp), bind_Returned.
    replace (pre ++ (p + average) :: l) with ((pre ++ [p + average]) ++ l)
      by (rewrite <- app_assoc; reflexivity).
    replace (Z.of_nat (length pre) + 1)
      with (Z.of_nat (length (pre ++ [p + average])))
      by (rewrite length_app; cbn; lia).
    apply IH, Hfit.
  - unfold Berkeley.update, long_add.
    cbn [Berkeley.slave_times].
    rewrite at_index_middle, bind_Returned, (as_long_overflows _ Hp).
    reflexivity.
Qed.

End BerkeleyOverflow.

(** X7. When a difference, a running sum, the corrected reference or a
    corrected reading of the run on a non-empty list leaves the 64-bit
    range, the run stops at that signed overflow: the code has no guard, and
    nothing is reported or returned. *)
Theorem berkeley_overflow_is_undefined (reference : Z) (participants : list Z) :
  participants ≠ [] →
  Z.of_nat (length participants) ≤ int_max →
  no_overflow reference participants = false →
  Berkeley.berkeley_on reference participants = Undefined SignedOverflow.
Proof.
  intros Hne Hint Hbad.
  assert (HN : 0 < Z.of_nat (length participants))
    by (destruct participants; [congruence | cbn [length]; lia]).
  assert (Hclock : ∀ (j : nat) (p : Z), participants !! j = Some p →
            at_index participants (0 + Z.of_nat j) = Returned p)
    by (intros j p Hj; rewrite Z.add_0_l; apply at_index_lookup, Hj).
  unfold Berkeley.berkeley_on, Berkeley.berkeley, for_int.
  rewrite Z.sub_0_r, Nat2Z.id.
  destruct (forallb (λ p, in_long (reference - p)) participants) eqn:Hdiff.
  2:{ rewrite (collect_loop_overflows reference _ participants 0 _ Hclock Hdiff).
      reflexivity. }
  rewrite (collect_loop reference _ participants 0 _ Hclock Hdiff).
  rewrite bind_Returned.
  cbn [Berkeley.slave_times Berkeley.time_differences Berkeley.out app].
  destruct (running_sums_fit 0 (Spec.offsets reference participants)) eqn:Hsums.
  2:{ pose proof (accumulate_loop_overflows
                    (Spec.offsets reference participants) [] 0 Hsums) as Hacc.
      unfold Spec.offsets in Hacc at 1. rewrite length_fmap in Hacc.
      cbn [length app] in Hacc. change (Z.of_nat 0) with 0 in Hacc.
      rewrite Hacc. reflexivity. }
  pose proof (accumulate_loop (Spec.offsets reference participants) [] 0 Hsums)
    as Hacc.
  unfold Spec.offsets in Hacc at 1. rewrite length_fmap in Hacc.
  cbn [length app] in Hacc. change (Z.of_nat 0) with 0 in Hacc.
  rewrite Hacc, bind_Returned, Z.add_0_l.
  pose proof (running_sums_total _ 0 ltac:(unfold long_min, long_max; lia) Hsums)
    as Htotal.
  rewrite Z.add_0_l in Htotal.
  pose proof (quot_between (Spec.total (Spec.offsets reference participants))
                (Z.of_nat (length participants)) HN) as Hq.
  unfold long_div.
  destruct (Z.eqb_spec (Z.of_nat (length participants)) 0) as [E | _]; [lia |].
  rewrite as_long_fits by (unfold long_min, long_max in *; lia).
  rewrite bind_Returned.
  fold (Spec.average_offset reference participants).
  unfold long_add at 1.
  fold (Spec.corrected_reference reference participants).
  destruct (in_long (Spec.corrected_reference reference participants)) eqn:Href.
  2:{ rewrite (as_long_overflows _ Href). reflexivity. }
  apply in_long_spec in Href. rewrite (as_long_fits _ Href), bind_Returned.
  destruct (forallb
              (λ p, in_long (p + Spec.average_offset reference participants))
              participants) eqn:Hupd.
  - exfalso. apply not_true_iff_false in Hbad. apply Hbad.
    apply no_overflow_spec. repeat split; try assumption; apply Href.
  - pose proof (update_loop_overflows
                  (Spec.average_offset reference participants)
                  participants [] (Spec.offsets reference participants))
      as Hloop.
    cbn [length app] in Hloop. change (Z.of_nat 0) with 0 in Hloop.
    rewrite (Hloop _ Hupd). reflexivity.
Qed.

Lemma berkeley_overflow_is_undefined_witness :
  Berkeley.berkeley_on 9223372036854775807 [9223372036854775800; -1]
  = Undefined SignedOverflow.
Proof.
  apply (berkeley_overflow_is_undefined 9223372036854775807
           [9223372036854775800; -1]);
    [discriminate | unfold int_max; cbn; lia | reflexivity].
Defined.

(** ** Further properties of berkeley.cpp: what the update does *)

Lemma quot_small_abs a b : Z.abs a < b → Z.quot a b = 0.
Proof.
  intros H. pose proof (quot_mul_abs_le a b ltac:(lia)). nia.
Qed.

(** X8. The update moves every slave by the same amount: the difference
    between any two slaves after the run is their difference before it, so
    the run brings no two clocks closer together. *)
Theorem berkeley_keeps_slaves_apart (reference : Z) (participants : list Z) :
  participants ≠ [] →
  no_overflow reference participants = true →
  ∃ v,
    Berkeley.berkeley_on reference participants = Returned v
    ∧ ∀ (i j : nat) (p q : Z),
        participants !! i = Some p → participants !! j = Some q →
        ∃ p' q',
          Berkeley.slave_times (Berkeley.final v) !! i = Some p'
          ∧ Berkeley.slave_times (Berkeley.final v) !! j = Some q'
          ∧ p' - q' = p - q.
Proof.
  intros Hne Hsafe.
  exists (expected reference participants).
  split; [apply berkeley_on_returns; assumption |].
  cbn [expected Berkeley.final Berkeley.slave_times].
  unfold Spec.corrected_participants.
  intros i j p q Hi Hj. do 2 eexists.
  rewrite !list_lookup_fmap, Hi, Hj.
  repeat split; try reflexivity. lia.
Qed.

Lemma berkeley_keeps_slaves_apart_witness :
  ∃ v,
    Berkeley.berkeley_on 100 [90; 94; 91] = Returned v
    ∧ ∀ (i j : nat) (p q : Z),
        [90; 94; 91] !! i = Some p → [90; 94; 91] !! j = Some q →
        ∃ p' q',
          Berkeley.slave_times (Berkeley.final v) !! i = Some p'
          ∧ Berkeley.slave_times (Berkeley.final v) !! j = Some q'
          ∧ p' - q' = p - q.
Proof.
  apply (berkeley_keeps_slaves_apart 100 [90; 94; 91]);
    [discriminate | reflexivity].
Defined.

(** X9. When the differences add up to less than [NUM_SLAVES] in absolute
    value the truncated average is 0: the master keeps its time and every
    slave keeps its reading, however far apart they are. *)
Theorem berkeley_small_sum_changes_nothing (reference : Z)
    (participants : list Z) :
  participants ≠ [] →
  no_overflow reference participants = true →
  Z.abs (foldr Z.add 0 ((λ p, reference - p) <$> participants))
    < Z.of_nat (length participants) →
  ∃ v,
    Berkeley.berkeley_on reference participants = Returned v
    ∧ Berkeley.average_difference v = 0
    ∧ Berkeley.synchronized_time v = reference
    ∧ Berkeley.slave_times (Berkeley.final v) = participants.
Proof.
  intros Hne Hsafe Hsmall.
  exists (expected reference participants).
  split; [apply berkeley_on_returns; assumption |].
  assert (Havg : Spec.average_offset reference participants = 0)
    by (apply quot_small_abs, Hsmall).
  cbn [expected Berkeley.final Berkeley.slave_times Berkeley.synchronized_time
       Berkeley.average_difference].
  unfold Spec.corrected_participants, Spec.corrected_reference.
  rewrite Havg. repeat split; [lia |].
  rewrite <- (list_fmap_id participants) at 2.
  apply list_fmap_ext. intros i p _. cbn. lia.
Qed.

Lemma berkeley_small_sum_changes_nothing_witness :
  ∃ v,
    Berkeley.berkeley_on 100 [95; 105; 96; 100; 100; 99] = Returned v
    ∧ Berkeley.average_difference v = 0
    ∧ Berkeley.synchronized_time v = 100
    ∧ Berkeley.slave_times (Berkeley.final v) = [95; 105; 96; 100; 100; 99].
Proof.
  apply (berkeley_small_sum_changes_nothing 100 [95; 105; 96; 100; 100; 99]);
    [discriminate | reflexivity | cbn; lia].
Defined.

(** X10. When every slave is within [D] of the reference, so is the
    average: the corrected reference stays within [D] of the reference and
    every corrected slave within [2 * D]. *)
Theorem berkeley_average_within_spread (D reference : Z)
    (participants : list Z) :
  participants ≠ [] →
  no_overflow reference participants = true →
  Forall (λ p, Z.abs (reference - p) ≤ D) participants →
  ∃ v,
    Berkeley.berkeley_on reference participants = Returned v
    ∧ Z.abs (Berkeley.average_difference v) ≤ D
    ∧ Z.abs (Berkeley.synchronized_time v - reference) ≤ D
    ∧ Forall (λ t, Z.abs (t - reference) ≤ 2 * D)
        (Berkeley.slave_times (Berkeley.final v)).
Proof.
  intros Hne Hsafe Hall.
  exists (expected reference participants).
  split; [apply berkeley_on_returns; assumption |].
  assert (HN : 0 < Z.of_nat (length participants))
    by (destruct participants; [congruence | cbn [length]; lia]).
  pose proof (total_bounded _ _ (offsets_bounded _ _ _ Hall)) as Htot.
  unfold Spec.offsets in Htot at 2. rewrite length_fmap in Htot.
  assert (Havg : Z.abs (Spec.average_offset reference participants) ≤ D)
    by (apply quot_abs_bound; assumption).
  cbn [expected Berkeley.final Berkeley.slave_times Berkeley.synchronized_time
       Berkeley.average_difference].
  unfold Spec.corrected_participants, Spec.corrected_reference.
  repeat split; [exact Havg | lia |].
  apply Forall_fmap. eapply Forall_impl; [exact Hall |].
  intros p Hp. unfold compose. cbn beta in Hp. lia.
Qed.

Lemma berkeley_average_within_spread_witness :
  ∃ v,
    Berkeley.berkeley_on 100 [90; 94; 91] = Returned v
    ∧ Z.abs (Berkeley.average_difference v) ≤ 10
    ∧ Z.abs (Berkeley.synchronized_time v - 100) ≤ 10
    ∧ Forall (λ t, Z.abs (t - 100) ≤ 2 * 10)
        (Berkeley.slave_times (Berkeley.final v)).
Proof.
  apply (berkeley_average_within_spread 10 100 [90; 94; 91]);
    [discriminate | reflexivity | repeat constructor; cbn; lia].
Defined.

(** X11. Only the offsets matter: moving the reference and every
    participant by the same amount leaves the differences and the average as
    they are and moves the corrected reference and the corrected
    participants by that amount. *)
Theorem berkeley_shift_invariant (reference shift : Z) (participants : list Z) :
  participants ≠ [] →
  no_overflow reference participants = true →
  no_overflow (reference + shift) ((λ p, p + shift) <$> participants) = true →
  ∃ v v',
    Berkeley.berkeley_on reference participants = Returned v
    ∧ Berkeley.berkeley_on (reference + shift)
        ((λ p, p + shift) <$> participants) = Returned v'
    ∧ Berkeley.time_differences (Berkeley.final v')
      = Berkeley.time_differences (Berkeley.final v)
    ∧ Berkeley.average_difference v' = Berkeley.average_difference v
    ∧ Berkeley.synchronized_time v' = Berkeley.synchronized_time v + shift
    ∧ Berkeley.slave_times (Berkeley.final v')
      = (λ t, t + shift) <$> Berkeley.slave_times (Berkeley.final v).
Proof.
  intros Hne Hsafe Hsafe'.
  exists (expected reference participants),
    (expected (reference + shift) ((λ p, p + shift) <$> participants)).
  split; [apply berkeley_on_returns; assumption |].
  split.
  { apply berkeley_on_returns; [| assumption].
    destruct participants; [congruence | discriminate]. }
  assert (Hoff : Spec.offsets (reference + shift)
                   ((λ p, p + shift) <$> participants)
                 = Spec.offsets reference participants).
  { unfold Spec.offsets. rewrite <- list_fmap_compose.
    apply list_fmap_ext. intros i p _. cbn. lia. }
  assert (Havg : Spec.average_offset (reference + shift)
                   ((λ p, p + shift) <$> participants)
                 = Spec.average_offset reference participants).
  { unfold Spec.average_offset. rewrite Hoff, length_fmap. reflexivity. }
  cbn [expected Berkeley.final Berkeley.slave_times Berkeley.time_differences
       Berkeley.synchronized_time Berkeley.average_difference].
  unfold Spec.corrected_participants, Spec.corrected_reference.
  rewrite Havg. repeat split; [exact Hoff | lia |].
  rewrite <- !list_fmap_compose.
  apply list_fmap_ext. intros i p _. cbn. lia.
Qed.

Lemma berkeley_shift_invariant_witness :
  ∃ v v',
    Berkeley.berkeley_on 100 [90; 94; 91] = Returned v
    ∧ Berkeley.berkeley_on (100 + 1700000000)
        ((λ p, p + 1700000000) <$> [90; 94; 91]) = Returned v'
    ∧ Berkeley.time_differences (Berkeley.final v')
      = Berkeley.time_differences (Berkeley.final v)
    ∧ Berkeley.average_difference v' = Berkeley.average_difference v
    ∧ Berkeley.synchronized_time v'
      = Berkeley.synchronized_time v + 1700000000
    ∧ Berkeley.slave_times (Berkeley.final v')
      = (λ t, t + 1700000000) <$> Berkeley.slave_times (Berkeley.final v).
Proof.
  apply (berkeley_shift_invariant 100 1700000000 [90; 94; 91]);
    [discriminate | reflexivity | reflexivity].
Defined.

(** ** Further properties of berkeley.cpp: [main] *)

(** X12. [main] after the update: the average is between -5 and 5, the
    synchronized master time is the master time plus the average, within 5
    seconds of it, and [slave_times] holds, slave by slave, the simulated
    reading moved by the average, every one within 10 seconds of the master
    time. *)
Theorem berkeley_main_moves_at_most_five (master_time : Z) (rand : nat → Z) :
  (∀ k, (k < 6)%nat → 0 ≤ rand k ≤ int_max) →
  long_min + 10 ≤ master_time ≤ long_max - 10 →
  ∃ v,
    Berkeley.main master_time rand = Returned (0, v)
    ∧ -5 ≤ Berkeley.average_difference v ≤ 5
    ∧ Berkeley.synchronized_time v
      = master_time + Berkeley.average_difference v
    ∧ Berkeley.slave_times (Berkeley.final v)
      = (λ k, master_time + (Z.rem (rand k) 11 - 5)
              + Berkeley.average_difference v) <$> seq 0 6
    ∧ Forall (λ t, Z.abs (t - master_time) ≤ 10)
        (Berkeley.slave_times (Berkeley.final v)).
Proof.
  intros Hrand Hm.
  exists (expected master_time (simulated_readings master_time rand)).
  split; [apply main_returns; assumption |].
  pose proof (simulated_readings_spread master_time rand Hrand) as Hspread.
  pose proof (total_bounded _ _ (offsets_bounded _ _ _ Hspread)) as Htot.
  unfold Spec.offsets in Htot at 2. rewrite length_fmap in Htot.
  assert (Havg : Z.abs (Spec.average_offset master_time
                          (simulated_readings master_time rand)) ≤ 5)
    by (apply quot_abs_bound; [cbn; lia | exact Htot]).
  cbn [expected Berkeley.final Berkeley.slave_times Berkeley.synchronized_time
       Berkeley.average_difference].
  split; [lia |]. split; [reflexivity |].
  unfold Spec.corrected_participants. split.
  - unfold simulated_readings at 2. rewrite <- list_fmap_compose. reflexivity.
  - apply Forall_fmap. eapply Forall_impl; [exact Hspread |].
    intros p Hp. unfold compose. cbn beta in Hp. lia.
Qed.

Lemma berkeley_main_moves_at_most_five_witness :
  ∃ v,
    Berkeley.main 1700000000 (λ k, 1804289383 + 7919 * Z.of_nat k)
    = Returned (0, v)
    ∧ -5 ≤ Berkeley.average_difference v ≤ 5
    ∧ Berkeley.synchronized_time v
      = 1700000000 + Berkeley.average_difference v
    ∧ Berkeley.slave_times (Berkeley.final v)
      = (λ k, 1700000000 + (Z.rem (1804289383 + 7919 * Z.of_nat k) 11 - 5)
              + Berkeley.average_difference v) <$> seq 0 6
    ∧ Forall (λ t, Z.abs (t - 1700000000) ≤ 10)
        (Berkeley.slave_times (Berkeley.final v)).
Proof.
  apply (berkeley_main_moves_at_most_five 1700000000
           (λ k, 1804289383 + 7919 * Z.of_nat k)).
  - intros k Hk. unfold int_max. lia.
  - unfold long_min, long_max. lia.
Defined.

(** X13. [main] is the algorithm run on six readings: for draws that
    [rand()] can return and a master time with ten seconds of room, it
    returns what the run on the master time and the list of the six
    simulated readings master + (rand() % 11) − 5 returns, with exit
    status 0. *)
Theorem berkeley_main_runs_algorithm (master_time : Z) (rand : nat → Z) :
  (∀ k, (k < 6)%nat → 0 ≤ rand k ≤ int_max) →
  long_min + 10 ≤ master_time ≤ long_max - 10 →
  ∃ v,
    Berkeley.berkeley_on master_time
      ((λ k, master_time + (Z.rem (rand k) 11 - 5)) <$> seq 0 6)
    = Returned v
    ∧ Berkeley.main master_time rand = Returned (0, v).
Proof.
  intros Hrand Hm.
  exists (expected master_time (simulated_readings master_time rand)).
  split; [| apply main_returns; assumption].
  apply (berkeley_on_returns master_time (simulated_readings master_time rand));
    [discriminate |].
  apply (no_overflow_of_spread 5).
  - discriminate.
  - unfold int_max. cbn. lia.
  - apply simulated_readings_spread, Hrand.
  - unfold long_max. cbn. lia.
  - lia.
Qed.

Lemma berkeley_main_runs_algorithm_witness :
  ∃ v,
    Berkeley.berkeley_on 1700000000
      ((λ k, 1700000000 + (Z.rem (1804289383 + 7919 * Z.of_nat k) 11 - 5))
         <$> seq 0 6)
    = Returned v
    ∧ Berkeley.main 1700000000 (λ k, 1804289383 + 7919 * Z.of_nat k)
      = Returned (0, v).
Proof.
  apply (berkeley_main_runs_algorithm 1700000000
           (λ k, 1804289383 + 7919 * Z.of_nat k)).
  - intros k Hk. unfold int_max. lia.
  - unfold long_min, long_max. lia.
Defined.

(** ** LoadBalancer.cc: what happens to the messages *)

(** X14. With at least two gates in the vector [out] and draws that
    [intuniform(0, 1)] can return, no [send] fails, and the calls of
    [handleMessage] for a sequence of arrivals send exactly the arriving
    messages, each once, unchanged and in the order of arrival, every one of
    them on gate 0 or gate 1, the gate being the draw of its own call. *)
Theorem load_balancer_forwards_every_message (cMessage : Type) (out_size : Z)
    (intuniform : nat → Z → Z → Z) (arrivals : list cMessage) :
  2 ≤ out_size →
  (∀ n, 0 ≤ intuniform n 0 1 ≤ 1) →
  ∀ k, ∃ trace,
    LoadBalancer.deliver cMessage out_size intuniform k arrivals = Some trace
    ∧ LoadBalancer.message <$> trace = arrivals
    ∧ Forall (λ s, LoadBalancer.gate_index s = 0
                   ∨ LoadBalancer.gate_index s = 1) trace
    ∧ ∀ (j : nat) s, trace !! j = Some s →
        LoadBalancer.gate_index s = intuniform (k + j)%nat 0 1.
Proof.
  intros Hsize Hdraw.
  induction arrivals as [| msg rest IH]; intros k.
  - exists []. repeat split; [constructor | intros j s H; discriminate H].
  - destruct (IH (S k)) as (trace & Hrun & Hmsgs & Hgates & Hdraws).
    exists ({| LoadBalancer.message := msg;
               LoadBalancer.gate_index := intuniform k 0 1 |} :: trace).
    pose proof (Hdraw k) as Hk.
    split.
    { cbn [LoadBalancer.deliver].
      unfold LoadBalancer.handleMessage, LoadBalancer.send.
      destruct (Z.leb_spec 0 (intuniform k 0 1)) as [_ | ?]; [| lia].
      destruct (Z.ltb_spec (intuniform k 0 1) out_size) as [_ | ?]; [| lia].
      cbn. rewrite Hrun. reflexivity. }
    split; [cbn; rewrite Hmsgs; reflexivity |].
    split; [constructor; [cbn; lia | exact Hgates] |].
    intros [| j] s Hs.
    + injection Hs as <-. cbn. rewrite Nat.add_0_r. reflexivity.
    + cbn in Hs. rewrite (Hdraws j s Hs). f_equal. lia.
Qed.

Lemma load_balancer_forwards_every_message_witness :
  ∃ trace,
    LoadBalancer.deliver nat 2 (λ n _ _, Z.of_nat n mod 2) 0 [10; 11; 12]%nat
    = Some trace
    ∧ LoadBalancer.message <$> trace = [10; 11; 12]%nat
    ∧ Forall (λ s, LoadBalancer.gate_index s = 0
                   ∨ LoadBalancer.gate_index s = 1) trace
    ∧ ∀ (j : nat) s, trace !! j = Some s →
        LoadBalancer.gate_index s = Z.of_nat (0 + j) mod 2.
Proof.
  apply (load_balancer_forwards_every_message nat 2
           (λ n _ _, Z.of_nat n mod 2) [10; 11; 12]%nat).
  - lia.
  - intros n. pose proof (Z.mod_pos_bound (Z.of_nat n) 2 ltac:(lia)). lia.
Defined.
